(** * scripts/make.js: the build orchestrator of the library

    A shallow embedding of [scripts/make.js]: the path classifier
    ([takeFiles], [createPathName], [createModuleName]), the manifest
    generator ([buildPathMapping]), the package descriptor transform
    ([prepareJson]) and the two pipelines (development and production).

    JavaScript strings are lists of characters, JavaScript objects are
    association lists in insertion order, synchronous effects run in a small
    trace-and-exception monad, and the asynchronous compile steps are tasks
    of a small event-loop machine. *)

From Stdlib Require Import Ascii String.
From Stdlib Require Import List Bool Arith Lia.
Import ListNotations.

(** ** JavaScript strings *)

Definition str := list ascii.

(** A string literal of the script. *)
Definition lit (s : string) : str := list_ascii_of_string s.

Definition ascii_eqb (a b : ascii) : bool := Ascii.eqb a b.

Fixpoint str_eqb (a b : str) : bool :=
  match a, b with
  | [], [] => true
  | x :: a', y :: b' => ascii_eqb x y && str_eqb a' b'
  | _, _ => false
  end.

(** [String.prototype.startsWith]. *)
Fixpoint startsWith (prefix s : str) : bool :=
  match prefix, s with
  | [], _ => true
  | p :: prefix', c :: s' => ascii_eqb p c && startsWith prefix' s'
  | _ :: _, [] => false
  end.

(** rambdax [endsWith(suffix, s)], that is [s.endsWith(suffix)]: the last
    characters of [s] are those of [suffix]. *)
Definition endsWith (suffix s : str) : bool :=
  startsWith (rev suffix) (rev s).

(** [String.prototype.indexOf]: the index of the first occurrence of
    [pattern], [None] for JavaScript's [-1]. *)
Fixpoint indexOf (pattern s : str) : option nat :=
  if startsWith pattern s then Some 0
  else match s with
       | [] => None
       | _ :: s' => option_map S (indexOf pattern s')
       end.

(** [String.prototype.includes]. *)
Definition includes (pattern s : str) : bool :=
  match indexOf pattern s with Some _ => true | None => false end.

(** The replacement text of [String.prototype.replace] for a string
    pattern (GetSubstitution without captures): in the replacer, [$$] stands
    for one dollar sign, [$&] for the matched text, [$`] for the text before
    the match and [$'] for the text after it; every other character, a
    dollar sign before anything else included, stands for itself. *)
Fixpoint expand (replacer matched before after : str) : str :=
  match replacer with
  | [] => []
  | d :: tl =>
      if ascii_eqb d "$"%char then
        match tl with
        | c :: rest =>
            if ascii_eqb c "$"%char then "$"%char :: expand rest matched before after
            else if ascii_eqb c "&"%char then matched ++ expand rest matched before after
            else if ascii_eqb c "`"%char then before ++ expand rest matched before after
            else if ascii_eqb c "'"%char then after ++ expand rest matched before after
            else d :: expand tl matched before after
        | [] => [d]
        end
      else d :: expand tl matched before after
  end.

(** rambdax [replace(pattern, replacer, s)], that is
    [s.replace(pattern, replacer)] with a string pattern: only the first
    occurrence of [pattern] is replaced, by the expansion of [replacer]; a
    string without the pattern is returned as it is. *)
Definition replace (pattern replacer s : str) : str :=
  match indexOf pattern s with
  | Some i =>
      let before := firstn i s in
      let after := skipn (i + length pattern) s in
      before ++ expand replacer pattern before after ++ after
  | None => s
  end.

(** rambdax [tail] on a string: the string without its first character. *)
Definition tail (s : str) : str :=
  match s with
  | [] => []
  | _ :: s' => s'
  end.

(** rambdax [join(glue, list)], that is [list.join(glue)]. *)
Fixpoint join (glue : str) (l : list str) : str :=
  match l with
  | [] => []
  | [x] => x
  | x :: l' => x ++ glue ++ join glue l'
  end.

(** ** Node's [path] module (POSIX) *)

Definition slash : ascii := "/"%char.

(** The backwards scan of [path.dirname]: [chars] holds the characters at
    indices [i], [i - 1], ... of the path; the scan stops above index 0 and
    yields the index of the slash that ends the directory part. *)
Fixpoint dirname_scan (chars : list ascii) (i : nat) (matchedSlash : bool)
  : option nat :=
  match chars, i with
  | c :: chars', S i' =>
      if ascii_eqb c slash
      then if negb matchedSlash then Some i
           else dirname_scan chars' i' matchedSlash
      else dirname_scan chars' i' false
  | _, _ => None
  end.

(** [path.dirname] (lib/path.js, posix). *)
Definition dirname (p : str) : str :=
  match p with
  | [] => lit "."
  | c0 :: _ =>
      let hasRoot := ascii_eqb c0 slash in
      match dirname_scan (rev p) (length p - 1) true with
      | None => if hasRoot then lit "/" else lit "."
      | Some e =>
          if hasRoot && Nat.eqb e 1 then lit "//" else firstn e p
      end
  end.

(** [path.resolve] on segments that are already normalized (no [.] or [..]
    and no doubled or trailing slash but the root's, as every call of this
    script passes): an absolute segment restarts the path, another one is
    appended after a separator. *)
Definition path_resolve (segments : list str) : str :=
  fold_left
    (fun acc seg =>
       if startsWith [slash] seg then seg
       else match seg with
            | [] => acc
            | _ => if endsWith [slash] acc then acc ++ seg
                   else acc ++ [slash] ++ seg
            end)
    segments [].

(** ** JSON values and objects *)

(** A JSON value; a number is kept as its literal text. An object lists its
    own properties in insertion order (the manifest's keys are names, none
    of them an array index, so this is the order [JSON.stringify] and
    [for ... in] follow). *)
#[warnings="-register-all"]
Inductive json : Type :=
| JNull
| JBool (b : bool)
| JNumber (text : str)
| JString (s : str)
| JArray (items : list json)
| JObject (props : list (str * json)).

Definition object := list (str * json).

(** The value of an own property: [obj[k]] where
    [obj.hasOwnProperty(k)], [None] otherwise. *)
Fixpoint get (k : str) (obj : object) : option json :=
  match obj with
  | [] => None
  | (k', v) :: obj' => if str_eqb k k' then Some v else get k obj'
  end.

(** [obj.hasOwnProperty(k)]. *)
Definition has (k : str) (obj : object) : bool :=
  match get k obj with Some _ => true | None => false end.

(** A data property written on the object itself: an existing one keeps
    its place and takes the new value, a new one is added last. *)
Fixpoint define (k : str) (v : json) (obj : object) : object :=
  match obj with
  | [] => [(k, v)]
  | (k', v') :: obj' =>
      if str_eqb k k' then (k', v) :: obj' else (k', v') :: define k v obj'
  end.

(** Assignment [obj[k] = v] on an object that inherits from
    [Object.prototype]. [__proto__] is an accessor of the prototype: unless
    the object holds a property of that name itself, assigning to it runs
    the setter, which changes the prototype (or nothing) and adds no
    property. *)
Definition set (k : str) (v : json) (obj : object) : object :=
  if str_eqb k (lit "__proto__") && negb (has k obj) then obj
  else define k v obj.

(** [Object.assign(target, source)]: every own property of [source] is
    assigned to [target], in order. *)
Definition Object_assign (target source : object) : object :=
  fold_left (fun acc kv => set (fst kv) (snd kv) acc) source target.

(** rambdax [omit(keys, obj)]: the properties of [obj] whose key is not
    listed are assigned, in order, to a new object. *)
Definition omit (keys : list str) (obj : object) : object :=
  fold_left
    (fun willReturn kv =>
       if existsb (str_eqb (fst kv)) keys then willReturn
       else set (fst kv) (snd kv) willReturn)
    obj [].

(** rambdax [merge(obj, newProps)], that is
    [Object.assign({}, obj, newProps)]: on a shared key [newProps] wins. *)
Definition merge (obj newProps : object) : object :=
  Object_assign (Object_assign [] obj) newProps.

(** ** The script's configuration *)

(** What the script reads from its environment when it is loaded:
    [path.resolve(__dirname, '..')] (an absolute, normalized path),
    [process.env.NODE_ENV], the project manifest [require('../package.json')]
    with its [name], and the [external] list of [rollup.config.js]. *)
Record config : Type := {
  project_root : str;
  NODE_ENV : option str;
  pkg : object;
  pkg_name : str;
  rollup_external : list str
}.

(** An entry of [klaw-sync]'s result (its [stats] are never read). *)
Record item : Type := { path : str }.

(** An element of the array given to [pathMappingTemplate]. *)
Record mapping : Type := { key : str; value : str }.

Definition newline : str := ["010"%char].
Definition dquote : str := ["034"%char].

Section Make.

Variable cfg : config.

(** [const resolvePath = (...paths) => path.resolve(__dirname, '..', ...paths)] *)
Definition resolvePath (paths : list str) : str :=
  path_resolve (project_root cfg :: paths).

(** [const isDevelopment = process.env.NODE_ENV === 'development'] *)
Definition isDevelopment : bool :=
  match NODE_ENV cfg with
  | Some env => str_eqb env (lit "development")
  | None => false
  end.

Definition ESM_MODULES : str := lit "esm".
Definition CJS_MODULES : str := lit "cjs".

Definition SOURCE_PATH : str := resolvePath [lit "src"].
Definition DIST_PATH : str := resolvePath [lit "dist"].
Definition DEV_PATH : str := resolvePath [lit "dev"].

Definition DIR_PATH : str := if isDevelopment then DEV_PATH else DIST_PATH.

(** [DO_NOT_BUILD_PATHS]: seven regular expressions, each a plain run of
    characters (the source escapes [/] and [.]), kept as that run. *)
Definition DO_NOT_BUILD_PATHS : list str :=
  [ lit "adapters/__tests__";
    lit "test.js";
    lit "type.js";
    lit "integrationTest.js";
    lit "__mocks__";
    lit "Collection/RecordCache.js";
    lit ".DS_Store" ].

(** [RegExp.prototype.test] for such an expression: it matches where the
    run occurs in the string. *)
Definition RegExp_test (source s : str) : bool := includes source s.

(** [anymatch(matchers, value)] with regular expressions for matchers:
    some matcher's [test] accepts the value. *)
Definition anymatch (matchers : list str) (v : str) : bool :=
  existsb (fun re => RegExp_test re v) matchers.

(** [const isNotIncludedInBuildPaths = value => !anymatch(DO_NOT_BUILD_PATHS, value)] *)
Definition isNotIncludedInBuildPaths (v : str) : bool :=
  negb (anymatch DO_NOT_BUILD_PATHS v).

(** [takeFiles = pipe(prop('path'), both(endsWith('.js'), isNotIncludedInBuildPaths))] *)
Definition takeFiles (it : item) : bool :=
  let p := path it in
  endsWith (lit ".js") p && isNotIncludedInBuildPaths p.

(** [takeModules = pipe(filter(takeFiles), map(prop('path')))] *)
Definition takeModules (paths : list item) : list str :=
  map path (filter takeFiles paths).

(** [const removeSourcePath = replace(SOURCE_PATH, '')] *)
Definition removeSourcePath (s : str) : str := replace SOURCE_PATH [] s.

(** [`'${module.key}': '${module.value}'`] *)
Definition toStringKeyValue (m : mapping) : str :=
  lit "'" ++ key m ++ lit "': '" ++ value m ++ lit "'".

(** [`    ${line},`] *)
Definition indentLine (line : str) : str :=
  lit "    " ++ line ++ lit ",".

Definition toStringObject (obj : list mapping) : str :=
  join newline (map (fun m => indentLine (toStringKeyValue m)) obj).

(** The template literal of [pathMappingTemplate], line by line. *)
Definition pathMappingTemplate (obj : list mapping) : str :=
  newline
  ++ dquote ++ lit "use strict" ++ dquote ++ newline
  ++ newline
  ++ lit "module.exports = function() {" ++ newline
  ++ lit "  return {" ++ newline
  ++ toStringObject obj ++ newline
  ++ lit "  }" ++ newline
  ++ lit "}" ++ newline
  ++ lit "  ".

(** [createModulePath(format)]: [replace(SOURCE_PATH, modulePath)]. *)
Definition createModulePath (format : str) : str -> str :=
  let modulePath := resolvePath [DIR_PATH; format] in
  replace SOURCE_PATH modulePath.

Definition createPathName (file : str) : str :=
  let v := removeSourcePath file in
  if endsWith (lit "index.js") v then dirname v
  else replace (lit ".js") [] v.

Definition createModuleName (name : str) : str :=
  let module := tail name in
  pkg_name cfg
  ++ (if str_eqb module [] then module else lit "/" ++ module).

(** The first stage of [buildPathMapping(format)]: the array of
    [{ key, value }] objects. *)
Definition pathMappings (format : str) (files : list str) : list mapping :=
  map (fun file =>
         let name := createPathName file in
         {| key := createModuleName name;
            value := (if isDevelopment then DEV_PATH else pkg_name cfg)
                     ++ lit "/" ++ format ++ name |})
      files.

(** [createExternals]: the module names of the eligible entries. *)
Definition createExternals (paths : list item) : list str :=
  fold_left
    (fun acc file =>
       let name := createPathName (path file) in
       acc ++ [createModuleName name])
    (filter takeFiles paths) [].

(** The object stage of [prepareJson]:
    [pipe(omit(['scripts']), merge({ main, module, sideEffects }))];
    [pipe] hands the manifest to [merge] as its second argument. *)
Definition packageFields : object :=
  [ (lit "main", JString (lit "./cjs/index.js"));
    (lit "module", JString (lit "./esm/index.js"));
    (lit "sideEffects", JBool false) ].

Definition prepareJsonObject (obj : object) : object :=
  merge packageFields (omit [lit "scripts"] obj).

End Make.

(** ** Effects: the file system, the console and the asynchronous calls *)

(** A JavaScript exception value. *)
Inductive error : Type := Error (message : str).

(** What [fs.writeFileSync] is given: a text, or [prettyJson(obj)]
    (json-stringify-pretty-compact's rendering of an object). *)
Inductive content : Type :=
| Text (s : str)
| PrettyJson (obj : object).

(** The synchronous file-system calls of the script; each may throw. *)
Inductive fs_call : Type :=
| rimraf_sync (dir : str)
| mkdirp_sync (dir : str)
| fs_writeFileSync (file : str) (data : content)
| fs_copySync (src dest : str).

(** The promise-returning calls of [buildModule(format)(file)]:
    [rollup.rollup({ ...rollupConfig, external, input })], tagged with the
    [format] of the [buildModule] that issues it, and
    [bundle.write({ format, file, exports: 'named' })]. *)
Inductive async_op : Type :=
| rollup_rollup (format input : str) (external : list str)
| bundle_write (format file : str).

(** What an observer of the running script sees, in order. *)
Inductive event : Type :=
| Klaw (dir : str)
| Fs (call : fs_call) (thrown : option error)
| ConsoleError (e : error)
| ConsoleLog (s : str)
| Watch (dir : str) (ignored : list str)
| Call (op : async_op)
| Settled (op : async_op) (fulfilled : bool).

(** The rest of an [async] function's body: it returns, or awaits a call and
    goes on with [k] once that settles. *)
Inductive task : Type :=
| Return
| Await (op : async_op) (k : task).

(** [await t; k] for an [async] function body [t]. *)
Fixpoint then_task (t k : task) : task :=
  match t with
  | Return => k
  | Await op t' => Await op (then_task t' k)
  end.

(** The script's state: what happened so far, and the [async] functions
    suspended at an [await], each with the call it waits for. *)
Record state : Type := {
  trace : list event;
  pending : list (async_op * task)
}.

Definition initial : state := {| trace := []; pending := [] |}.

Definition log (e : event) (st : state) : state :=
  {| trace := trace st ++ [e]; pending := pending st |}.

(** Calling an [async] function: its body runs up to its first [await],
    where the awaited call has been issued and the caller gets a promise. *)
Definition start (t : task) (st : state) : state :=
  match t with
  | Return => st
  | Await op k =>
      {| trace := trace st ++ [Call op]; pending := pending st ++ [(op, k)] |}
  end.

(** The environment: whether the walk of a directory throws (as
    [klaw-sync] does on a directory it cannot read) and what it lists when
    it does not, and which file-system call throws (it may depend on all
    that happened before). *)
Record world : Type := {
  klaw_throws : str -> option error;
  klaw_sync : str -> list item;
  fs_throws : list event -> fs_call -> option error
}.

(** Synchronous code: it returns a value or throws, and changes the state. *)
Inductive result (A : Type) : Type :=
| Ret (a : A)
| Throw (e : error).
Arguments Ret {A} a.
Arguments Throw {A} e.

Definition M (A : Type) : Type := state -> result A * state.

Definition ret {A} (a : A) : M A := fun st => (Ret a, st).

Definition bind {A B} (c : M A) (f : A -> M B) : M B :=
  fun st =>
    match c st with
    | (Ret a, st') => f a st'
    | (Throw e, st') => (Throw e, st')
    end.

Declare Scope js_scope.
Delimit Scope js_scope with js.
Notation "x <- c ;; k" := (bind c (fun x => k))
  (at level 61, c at next level, right associativity) : js_scope.
Notation "c ;; k" := (bind c (fun _ => k))
  (at level 61, right associativity) : js_scope.

(** [try { body } catch (err) { handler(err) }] *)
Definition try_catch {A} (body : M A) (handler : error -> M A) : M A :=
  fun st =>
    match body st with
    | (Ret a, st') => (Ret a, st')
    | (Throw e, st') => handler e st'
    end.

Definition emit (e : event) : M unit := fun st => (Ret tt, log e st).

(** Calling an [async] function never throws: a failure inside it rejects
    the promise it returned, which this script never reads. *)
Definition call_async (t : task) : M unit := fun st => (Ret tt, start t st).

(** rambdax [forEach(fn, list)]. *)
Fixpoint forEach {A} (fn : A -> M unit) (l : list A) : M unit :=
  match l with
  | [] => ret tt
  | x :: l' => bind (fn x) (fun _ => forEach fn l')
  end.

(** ** The script *)

Definition check_mark : str := ["226"%char; "156"%char; "147"%char].

Section Script.

Variable cfg : config.
Variable w : world.

Local Open Scope js_scope.

(** A synchronous file-system call: the world decides whether it throws. *)
Definition fs_do (c : fs_call) : M unit :=
  fun st =>
    match fs_throws w (trace st) c with
    | None => (Ret tt, log (Fs c None) st)
    | Some e => (Throw e, log (Fs c (Some e)) st)
    end.

(** [klaw(dir)]: the walk is made, and its list returned unless it
    throws. *)
Definition klaw (dir : str) : M (list item) :=
  fun st =>
    match klaw_throws w dir with
    | None => (Ret (klaw_sync w dir), log (Klaw dir) st)
    | Some e => (Throw e, log (Klaw dir) st)
    end.

(** [const cleanFolder = dir => rimraf.sync(dir)] *)
Definition cleanFolder (dir : str) : M unit := fs_do (rimraf_sync dir).

(** The last stage of [buildPathMapping(format)]: the [try]/[catch]
    around [mkdirp.sync] and [fs.writeFileSync]. *)
Definition writePathMapping (format : str) (content : str) : M unit :=
  try_catch
    (fs_do (mkdirp_sync (resolvePath cfg [DIR_PATH cfg; format])) ;;
     fs_do (fs_writeFileSync
              (resolvePath cfg [DIR_PATH cfg; format; lit "path-mapping.js"])
              (Text content)))
    (fun err => emit (ConsoleError err)).

Definition buildPathMapping (format : str) (files : list str) : M unit :=
  writePathMapping format (pathMappingTemplate (pathMappings cfg format files)).

Definition buildCjsPathMapping := buildPathMapping CJS_MODULES.
Definition buildEsmPathMapping := buildPathMapping ESM_MODULES.

(** [buildModule(format)(file)] with the [externals] computed at load. *)
Definition buildModule (externals : list str) (format file : str) : task :=
  let modulePath := createModulePath cfg format in
  Await (rollup_rollup format file (rollup_external cfg ++ externals))
    (Await (bundle_write format (modulePath file)) Return).

(** [const createFolder = dir => mkdirp.sync(resolvePath(dir))] *)
Definition createFolder (dir : str) : M unit :=
  fs_do (mkdirp_sync (resolvePath cfg [dir])).

Definition createPackageJson (dir : str) (obj : object) : M unit :=
  fs_do (fs_writeFileSync (resolvePath cfg [dir; lit "package.json"])
           (PrettyJson (prepareJsonObject obj))).

Definition copyFiles (dir : str) (files : list str) : M unit :=
  forEach
    (fun file =>
       fs_do (fs_copySync (resolvePath cfg [file]) (resolvePath cfg [dir; file])))
    files.

(** rambdax [mapAsync(fn)(list)]: [for (const a of list) await fn(a)], the
    calls one after the other, each awaited before the next is made. *)
Definition mapAsync (fn : str -> task) (l : list str) : task :=
  fold_right (fun a k => then_task (fn a) k) Return l.

(** The development branch's [buildModules]: both calls are made, none is
    awaited. *)
Definition buildModules_dev (externals : list str) (file : str) : M unit :=
  call_async (buildModule externals CJS_MODULES file) ;;
  call_async (buildModule externals ESM_MODULES file).

(** The listener given to [.on('all', ...)]. *)
Definition on_all (externals : list str) (event fileOrDir : str) : M unit :=
  if str_eqb event (lit "add") || str_eqb event (lit "change")
  then emit (ConsoleLog (check_mark ++ lit " " ++ removeSourcePath cfg fileOrDir)) ;;
       buildModules_dev externals fileOrDir
  else ret tt.

Definition development (modules externals : list str) : M unit :=
  cleanFolder (DEV_PATH cfg) ;;
  createFolder (DEV_PATH cfg) ;;
  buildCjsPathMapping modules ;;
  buildEsmPathMapping modules ;;
  emit (Watch (resolvePath cfg [lit "src"]) DO_NOT_BUILD_PATHS).

(** The production branch's [buildModules(format)]: [mapAsync] over
    [buildModule(format)]; its promise is dropped. *)
Definition buildModules (externals : list str) (format : str)
           (modules : list str) : M unit :=
  call_async (mapAsync (buildModule externals format) modules).

Definition staticFiles : list str :=
  [lit "LICENSE"; lit "README.md"; lit "yarn.lock"; lit "docs"; lit "src";
   lit "native"].

Definition production (modules externals : list str) : M unit :=
  cleanFolder (DIST_PATH cfg) ;;
  createFolder (DIST_PATH cfg) ;;
  createPackageJson (DIST_PATH cfg) (pkg cfg) ;;
  copyFiles (DIST_PATH cfg) staticFiles ;;
  buildCjsPathMapping modules ;;
  buildEsmPathMapping modules ;;
  buildModules externals ESM_MODULES modules ;;
  buildModules externals CJS_MODULES modules.

(** The script from its first line to its last: the walk of the source
    tree, then one of the two branches. *)
Definition make : M unit :=
  paths <- klaw (SOURCE_PATH cfg) ;;
  let modules := takeModules paths in
  let externals := createExternals cfg paths in
  if isDevelopment cfg then development modules externals
  else production modules externals.

(** The externals and modules the listeners close over. *)
Definition loaded_modules : list str := takeModules (klaw_sync w (SOURCE_PATH cfg)).
Definition loaded_externals : list str :=
  createExternals cfg (klaw_sync w (SOURCE_PATH cfg)).

(** chokidar with [{ ignored: DO_NOT_BUILD_PATHS }]: a path that matches
    an ignored pattern raises no event; any other event reaches the
    listener. *)
Definition watch_event (event fileOrDir : str) : M unit :=
  if anymatch DO_NOT_BUILD_PATHS fileOrDir then ret tt
  else on_all loaded_externals event fileOrDir.

(** The settling of the [i]-th pending call: its [async] function goes on
    when the call is fulfilled, and ends (its promise rejected) when not. *)
Definition settle (i : nat) (fulfilled : bool) (st : state) : state :=
  match nth_error (pending st) i with
  | None => st
  | Some (op, k) =>
      let st' := {| trace := trace st ++ [Settled op fulfilled];
                    pending := firstn i (pending st) ++ skipn (S i) (pending st) |} in
      if fulfilled then start k st' else st'
  end.

(** One turn of the event loop after the script's last line: a pending
    call settles, or (while watching) a file-system event arrives. *)
Inductive turn : state -> state -> Prop :=
| turn_settle st i fulfilled :
    i < length (pending st) ->
    turn st (settle i fulfilled st)
| turn_watch st event fileOrDir :
    isDevelopment cfg = true ->
    turn st (snd (watch_event event fileOrDir st)).

Inductive turns : state -> state -> Prop :=
| turns_refl st : turns st st
| turns_step st1 st2 st3 : turns st1 st2 -> turn st2 st3 -> turns st1 st3.

End Script.

(** ** Notions the properties are stated with *)

(** The public module name of a file, as [buildPathMapping] and
    [createExternals] compute it. *)
Definition moduleName (cfg : config) (file : str) : str :=
  createModuleName cfg (createPathName cfg file).

(** The naming rule in the specification's words: the source root is
    stripped from the front, a path that ends with [index.js] gives its
    directory, another one loses its [.js] extension (its last three
    characters); the name is the package name for the root index and
    [packageName/derivedName] otherwise, the derived name written without
    its leading separator. *)
Definition strip_prefix (prefix s : str) : str :=
  if startsWith prefix s then skipn (length prefix) s else s.

Definition remove_extension (r : str) : str :=
  if endsWith (lit ".js") r then firstn (length r - 3) r else r.

Definition spec_derivedName (cfg : config) (file : str) : str :=
  let r := strip_prefix (SOURCE_PATH cfg) file in
  tail (if endsWith (lit "index.js") r then dirname r else remove_extension r).

Definition spec_moduleName (cfg : config) (file : str) : str :=
  let derived := spec_derivedName cfg file in
  match derived with
  | [] => pkg_name cfg
  | _ => pkg_name cfg ++ lit "/" ++ derived
  end.

(** Injectivity of the naming over eligible files, as the specification
    states it. *)
Definition moduleName_injective (cfg : config) : Prop :=
  forall f1 f2 : str,
    takeFiles {| path := f1 |} = true ->
    takeFiles {| path := f2 |} = true ->
    f1 <> f2 ->
    moduleName cfg f1 <> moduleName cfg f2.

Definition option_nat_eqb (a b : option nat) : bool :=
  match a, b with
  | Some x, Some y => Nat.eqb x y
  | None, None => true
  | _, _ => false
  end.

(** A root-relative path of the kind the naming is injective on: it starts
    at the separator, has no empty segment, its only [.js] is its extension,
    and when it ends with [index.js] that is its whole file name. *)
Definition plain_relative (r : str) : bool :=
  startsWith (lit "/") r
  && negb (includes (lit "//") r)
  && option_nat_eqb (indexOf (lit ".js") r) (Some (length r - 3))
  && (negb (endsWith (lit "index.js") r) || endsWith (lit "/index.js") r).

(** [r1] is a directory index and [r2] the file named as its directory. *)
Definition index_of_sibling (r1 r2 : str) : Prop :=
  endsWith (lit "index.js") r1 = true
  /\ endsWith (lit "index.js") r2 = false
  /\ r2 = dirname r1 ++ lit ".js".

Definition op_format (op : async_op) : str :=
  match op with
  | rollup_rollup format _ _ => format
  | bundle_write format _ => format
  end.

(** The production pipeline's steps as the specification numbers them:
    1 clean the output directory, 2 ensure it exists, 3 discover the files,
    4 generate the manifests, 5 write the package descriptor, 6 copy the
    static assets, 7 compile to ESM, 8 compile to CJS. *)
Definition spec_step (cfg : config) (e : event) : option nat :=
  match e with
  | Fs (rimraf_sync _) _ => Some 1
  | Fs (mkdirp_sync d) _ =>
      if str_eqb d (resolvePath cfg [DIST_PATH cfg]) then Some 2 else Some 4
  | Klaw _ => Some 3
  | Fs (fs_writeFileSync _ (Text _)) _ => Some 4
  | ConsoleError _ => Some 4
  | Fs (fs_writeFileSync _ (PrettyJson _)) _ => Some 5
  | Fs (fs_copySync _ _) _ => Some 6
  | Call op | Settled op _ =>
      if str_eqb (op_format op) ESM_MODULES then Some 7 else Some 8
  | ConsoleLog _ | Watch _ _ => None
  end.

Definition spec_steps (cfg : config) (tr : list event) : list nat :=
  flat_map (fun e => match spec_step cfg e with Some n => [n] | None => [] end) tr.

Fixpoint nondecreasing (l : list nat) : bool :=
  match l with
  | [] => true
  | x :: l' =>
      match l' with
      | [] => true
      | y :: _ => Nat.leb x y && nondecreasing l'
      end
  end.

(** "The FormatA batch is fully awaited before any FormatB compile begins":
    along the trace, with [outstanding] ESM calls issued and not yet settled,
    no CJS call is issued while one is outstanding. *)
Fixpoint esm_awaited (outstanding : nat) (tr : list event) : bool :=
  match tr with
  | [] => true
  | Call op :: tr' =>
      if str_eqb (op_format op) ESM_MODULES
      then esm_awaited (S outstanding) tr'
      else Nat.eqb outstanding 0 && esm_awaited outstanding tr'
  | Settled op _ :: tr' =>
      if str_eqb (op_format op) ESM_MODULES
      then esm_awaited (pred outstanding) tr'
      else esm_awaited outstanding tr'
  | _ :: tr' => esm_awaited outstanding tr'
  end.

Definition production_as_specified (cfg : config) (tr : list event) : bool :=
  nondecreasing (spec_steps cfg tr) && esm_awaited 0 tr.

(** [s.split(sep)] for a one-character separator. *)
Fixpoint split (sep : ascii) (s : str) : list str :=
  match s with
  | [] => [[]]
  | c :: s' =>
      if ascii_eqb c sep then [] :: split sep s'
      else match split sep s' with
           | line :: rest => (c :: line) :: rest
           | [] => [[c]]
           end
  end.


(** The file-system calls of a trace. *)
Definition fs_calls (tr : list event) : list fs_call :=
  flat_map (fun e => match e with Fs c _ => [c] | _ => [] end) tr.

(** The world in which neither the walk nor a file-system call throws. *)
Definition never_throws (w : world) : Prop :=
  (forall dir, klaw_throws w dir = None)
  /\ forall tr c, fs_throws w tr c = None.

(** ** A small project to run the script on *)

Module Demo.

(** The tree of the specification's first scenario, as [klaw-sync] lists
    it (directories included), in package [lib]. *)
Definition tree : list item :=
  map (fun p => {| path := lit p |})
    [ "/proj/src/Foo"%string;
      "/proj/src/Foo/__tests__"%string;
      "/proj/src/Foo/__tests__/bar.test.js"%string;
      "/proj/src/Foo/bar.js"%string;
      "/proj/src/Foo/index.js"%string;
      "/proj/src/index.js"%string ].

Definition manifest : object :=
  [ (lit "name", JString (lit "lib"));
    (lit "version", JString (lit "1.0.0"));
    (lit "main", JString (lit "src/index.js"));
    (lit "scripts", JObject [(lit "build", JString (lit "node scripts/make.js"))]) ].

Definition prod : config :=
  {| project_root := lit "/proj";
     NODE_ENV := None;
     pkg := manifest;
     pkg_name := lit "lib";
     rollup_external := [lit "rxjs"] |}.

Definition dev : config :=
  {| project_root := lit "/proj";
     NODE_ENV := Some (lit "development");
     pkg := manifest;
     pkg_name := lit "lib";
     rollup_external := [lit "rxjs"] |}.

Definition calm : world :=
  {| klaw_throws := fun _ => None;
     klaw_sync := fun _ => tree;
     fs_throws := fun _ _ => None |}.

Definition EACCES : error := Error (lit "EACCES: permission denied").

(** A world in which every [mkdirp.sync] below the output root throws. *)
Definition readonly : world :=
  {| klaw_throws := fun _ => None;
     klaw_sync := fun _ => tree;
     fs_throws := fun _ c =>
       match c with
       | mkdirp_sync d =>
           if str_eqb d (lit "/proj/dist") then None else Some EACCES
       | _ => None
       end |}.

(** A world whose walk finds [Foo/bar.js] alone. *)
Definition solo : world :=
  {| klaw_throws := fun _ => None;
     klaw_sync := fun _ => [{| path := lit "/proj/src/Foo/bar.js" |}];
     fs_throws := fun _ _ => None |}.

(** A world in which the output directory cannot be removed. *)
Definition locked : world :=
  {| klaw_throws := fun _ => None;
     klaw_sync := fun _ => tree;
     fs_throws := fun _ c =>
       match c with
       | rimraf_sync _ => Some EACCES
       | _ => None
       end |}.

End Demo.

(** The state the listener leaves on [add] and [change]: one line on the
    console, then the two [buildModule] calls, CJS first, each suspended at
    its first [await]. *)
Definition dispatched (cfg : config) (externals : list str) (file : str)
           (st : state) : state :=
  let external := rollup_external cfg ++ externals in
  {| trace :=
       trace st
       ++ [ ConsoleLog (check_mark ++ lit " " ++ removeSourcePath cfg file);
            Call (rollup_rollup CJS_MODULES file external);
            Call (rollup_rollup ESM_MODULES file external) ];
     pending :=
       pending st
       ++ [ (rollup_rollup CJS_MODULES file external,
             Await (bundle_write CJS_MODULES (createModulePath cfg CJS_MODULES file))
               Return);
            (rollup_rollup ESM_MODULES file external,
             Await (bundle_write ESM_MODULES (createModulePath cfg ESM_MODULES file))
               Return) ] |}.

(** The file-system calls of the production branch, in the order the
    script makes them: clean, create, package descriptor, static files, CJS
    manifest, ESM manifest. *)
Definition production_calls (cfg : config) (modules : list str) : list fs_call :=
  [ rimraf_sync (DIST_PATH cfg);
    mkdirp_sync (resolvePath cfg [DIST_PATH cfg]);
    fs_writeFileSync (resolvePath cfg [DIST_PATH cfg; lit "package.json"])
      (PrettyJson (prepareJsonObject (pkg cfg))) ]
  ++ map (fun file =>
            fs_copySync (resolvePath cfg [file]) (resolvePath cfg [DIST_PATH cfg; file]))
         staticFiles
  ++ [ mkdirp_sync (resolvePath cfg [DIST_PATH cfg; CJS_MODULES]);
       fs_writeFileSync
         (resolvePath cfg [DIST_PATH cfg; CJS_MODULES; lit "path-mapping.js"])
         (Text (pathMappingTemplate (pathMappings cfg CJS_MODULES modules)));
       mkdirp_sync (resolvePath cfg [DIST_PATH cfg; ESM_MODULES]);
       fs_writeFileSync
         (resolvePath cfg [DIST_PATH cfg; ESM_MODULES; lit "path-mapping.js"])
         (Text (pathMappingTemplate (pathMappings cfg ESM_MODULES modules))) ].

(** The first call of a format's batch, and the batch suspended on it. *)
Definition batch_call (cfg : config) (externals : list str) (format : str)
           (modules : list str) : list event :=
  match modules with
  | [] => []
  | file :: _ =>
      [Call (rollup_rollup format file (rollup_external cfg ++ externals))]
  end.

Definition batch_pending (cfg : config) (externals : list str) (format : str)
           (modules : list str) : list (async_op * task) :=
  match modules with
  | [] => []
  | file :: rest =>
      [ (rollup_rollup format file (rollup_external cfg ++ externals),
         Await (bundle_write format (createModulePath cfg format file))
           (mapAsync (buildModule cfg externals format) rest)) ]
  end.

(** The file-system calls of the development branch before the watcher
    is started. *)
Definition development_calls (cfg : config) (modules : list str) : list fs_call :=
  [ rimraf_sync (DEV_PATH cfg);
    mkdirp_sync (resolvePath cfg [DEV_PATH cfg]);
    mkdirp_sync (resolvePath cfg [DEV_PATH cfg; CJS_MODULES]);
    fs_writeFileSync
      (resolvePath cfg [DEV_PATH cfg; CJS_MODULES; lit "path-mapping.js"])
      (Text (pathMappingTemplate (pathMappings cfg CJS_MODULES modules)));
    mkdirp_sync (resolvePath cfg [DEV_PATH cfg; ESM_MODULES]);
    fs_writeFileSync
      (resolvePath cfg [DEV_PATH cfg; ESM_MODULES; lit "path-mapping.js"])
      (Text (pathMappingTemplate (pathMappings cfg ESM_MODULES modules))) ].

(** ** Notions for the script's failures and its file-system footprint *)

(** Synchronous code that starts no compilation: it leaves the pending
    calls alone, adds only events of the kind [P], and when it throws, the
    last event is the file-system call that threw. *)
Definition sync_step (P : event -> Prop) {A : Type} (c : M A) : Prop :=
  forall st,
    pending (snd (c st)) = pending st
    /\ exists more,
        trace (snd (c st)) = trace st ++ more
        /\ Forall P more
        /\ forall e, fst (c st) = Throw e ->
                     exists before call, more = before ++ [Fs call (Some e)].

(** The statements of each branch before its first asynchronous call. *)
Definition production_setup (cfg : config) (w : world) (modules : list str)
  : M unit :=
  bind (cleanFolder w (DIST_PATH cfg)) (fun _ =>
  bind (createFolder cfg w (DIST_PATH cfg)) (fun _ =>
  bind (createPackageJson cfg w (DIST_PATH cfg) (pkg cfg)) (fun _ =>
  bind (copyFiles cfg w (DIST_PATH cfg) staticFiles) (fun _ =>
  bind (buildCjsPathMapping cfg w modules) (fun _ =>
  buildEsmPathMapping cfg w modules))))).

Definition development_setup (cfg : config) (w : world) (modules : list str)
  : M unit :=
  bind (cleanFolder w (DEV_PATH cfg)) (fun _ =>
  bind (createFolder cfg w (DEV_PATH cfg)) (fun _ =>
  bind (buildCjsPathMapping cfg w modules) (fun _ =>
  buildEsmPathMapping cfg w modules))).

(** A path at or below the output directory: the directory itself, or a
    path that goes on after it with a separator. *)
Definition in_output (cfg : config) (p : str) : Prop :=
  p = DIR_PATH cfg \/ startsWith (DIR_PATH cfg ++ [slash]) p = true.

(** The file-system footprint the script keeps to: the path it has removed
    is the output directory, and it creates, writes and copies to paths at
    or below it. *)
Definition in_footprint (cfg : config) (c : fs_call) : Prop :=
  match c with
  | rimraf_sync d => d = DIR_PATH cfg
  | mkdirp_sync d => in_output cfg d
  | fs_writeFileSync f _ => in_output cfg f
  | fs_copySync _ dest => in_output cfg dest
  end.

(** The events of a run before its first asynchronous call. *)
Definition setup_event (cfg : config) (e : event) : Prop :=
  match e with
  | Klaw d => d = SOURCE_PATH cfg
  | Fs c _ => in_footprint cfg c
  | ConsoleError _ => True
  | Watch d _ => d = SOURCE_PATH cfg
  | ConsoleLog _ | Call _ | Settled _ _ => False
  end.

Definition quiet_event (e : event) : Prop :=
  match e with
  | Klaw _ | Fs _ _ | ConsoleError _ => True
  | ConsoleLog _ | Watch _ _ | Call _ | Settled _ _ => False
  end.

(** The file-system calls made outside [buildPathMapping]: removing and
    creating the output directory, writing [package.json], copying. *)
Definition outside_manifest (cfg : config) (c : fs_call) : Prop :=
  match c with
  | mkdirp_sync d => d = resolvePath cfg [DIR_PATH cfg]
  | fs_writeFileSync _ (Text _) => False
  | _ => True
  end.

(** ** Notions for the asynchronous part *)

(** "A bundle is written only when its build has just been fulfilled": along
    the trace, with [prev] the event before, every [bundle.write] call
    comes right after the fulfilment of a [rollup.rollup] call of the same
    format, and goes to the output path of that call's input. *)
Fixpoint writes_follow_builds (cfg : config) (prev : option event)
         (tr : list event) : bool :=
  match tr with
  | [] => true
  | e :: tr' =>
      match e with
      | Call (bundle_write format out) =>
          match prev with
          | Some (Settled (rollup_rollup format' file _) true) =>
              str_eqb format format'
              && str_eqb out (createModulePath cfg format file)
          | _ => false
          end
      | _ => true
      end
      && writes_follow_builds cfg (Some e) tr'
  end.

Definition last_event (prev : option event) (tr : list event) : option event :=
  fold_left (fun _ e => Some e) tr prev.

(** A task made of [buildModule] bodies: each [rollup.rollup] call is
    followed by the [bundle.write] of its format to its output path. *)
Fixpoint builds (cfg : config) (t : task) : Prop :=
  match t with
  | Return => True
  | Await (rollup_rollup format file _) (Await (bundle_write format' out) k) =>
      format' = format /\ out = createModulePath cfg format file /\ builds cfg k
  | _ => False
  end.

(** A pending call of such a task: a [rollup.rollup] with its write to
    come, or a [bundle.write] with further builds to come. *)
Definition pending_ok (cfg : config) (p : async_op * task) : Prop :=
  builds cfg (Await (fst p) (snd p))
  \/ ((exists format out, fst p = bundle_write format out) /\ builds cfg (snd p)).

(** The calls still to be made or settled: one for each pending call and
    one for each [await] behind it. *)
Fixpoint task_size (t : task) : nat :=
  match t with
  | Return => 0
  | Await _ k => S (task_size k)
  end.

Definition work (st : state) : nat :=
  list_sum (map (fun p => S (task_size (snd p))) (pending st)).

(** [n] turns of the event loop. *)
Inductive turns_n (cfg : config) (w : world) : nat -> state -> state -> Prop :=
| turns_n_refl st : turns_n cfg w 0 st st
| turns_n_step n st1 st2 st3 :
    turns_n cfg w n st1 st2 -> turn cfg w st2 st3 -> turns_n cfg w (S n) st1 st3.

(** A state in which bundles were written only after their builds, and
    whose pending calls all belong to [buildModule] bodies. *)
Definition orderly (cfg : config) (st : state) : Prop :=
  writes_follow_builds cfg None (trace st) = true
  /\ Forall (pending_ok cfg) (pending st).

(** ** Notions for a format's batch *)

(** The calls a task makes, in order. *)
Fixpoint task_ops (t : task) : list async_op :=
  match t with
  | Return => []
  | Await op k => op :: task_ops k
  end.

Definition is_format (format : str) (op : async_op) : bool :=
  str_eqb (op_format op) format.

(** The calls of one format issued along a trace, in order. *)
Definition calls (format : str) (tr : list event) : list async_op :=
  flat_map (fun e => match e with
                     | Call op => if is_format format op then [op] else []
                     | _ => []
                     end) tr.

(** A call of the format was rejected. *)
Definition rejected (format : str) (tr : list event) : Prop :=
  exists op, In (Settled op false) tr /\ is_format format op = true.

(** The calls of one format still to be issued by the pending tasks. *)
Definition todo (format : str) (l : list (async_op * task)) : list async_op :=
  flat_map (fun p => task_ops (snd p))
    (filter (fun p => is_format format (fst p)) l).

(** What a format's batch is to call: for each module, in order, its build
    and then its write. *)
Definition batch_ops (cfg : config) (externals : list str) (format : str)
           (modules : list str) : list async_op :=
  flat_map (fun file =>
              [ rollup_rollup format file (rollup_external cfg ++ externals);
                bundle_write format (createModulePath cfg format file) ])
    modules.

(** A production run on schedule: every pending task calls in its own
    format only, and for each format, unless one of its calls was rejected,
    what was called and what is still to call make up the batch, with at
    most one call of the format pending. *)
Definition on_schedule (cfg : config) (externals modules : list str)
           (st : state) : Prop :=
  Forall (fun p => Forall (fun op => op_format op = op_format (fst p))
                     (task_ops (snd p)))
         (pending st)
  /\ forall format,
      format = ESM_MODULES \/ format = CJS_MODULES ->
      rejected format (trace st)
      \/ (calls format (trace st) ++ todo format (pending st)
          = batch_ops cfg externals format modules
          /\ length (filter (fun p => is_format format (fst p)) (pending st)) <= 1).

(** The directories walked along a trace. *)
Definition walks (tr : list event) : list str :=
  flat_map (fun e => match e with Klaw d => [d] | _ => [] end) tr.

(** The events of a branch's setup: file-system calls and printed errors. *)
Definition setup_only (e : event) : Prop :=
  match e with
  | Fs _ _ | ConsoleError _ => True
  | _ => False
  end.

(** * Properties *)

(** ** Strings *)

Lemma ascii_eqb_eq (a b : ascii) : ascii_eqb a b = true <-> a = b.
Proof. unfold ascii_eqb. apply Ascii.eqb_eq. Qed.

Lemma ascii_eqb_refl (a : ascii) : ascii_eqb a a = true.
Proof. apply ascii_eqb_eq. reflexivity. Qed.

Lemma str_eqb_eq (a b : str) : str_eqb a b = true <-> a = b.
Proof.
  revert b. induction a as [|x a IH]; intros [|y b]; simpl; split; intro H;
    try reflexivity; try discriminate.
  - apply andb_true_iff in H as [Hx Hab].
    apply ascii_eqb_eq in Hx. apply IH in Hab. congruence.
  - injection H as -> ->. rewrite ascii_eqb_refl. simpl. apply IH. reflexivity.
Qed.

Lemma str_eqb_refl (a : str) : str_eqb a a = true.
Proof. apply str_eqb_eq. reflexivity. Qed.

Lemma str_eqb_neq (a b : str) : str_eqb a b = false <-> a <> b.
Proof.
  split.
  - intros H E. apply str_eqb_eq in E. congruence.
  - intro H. destruct (str_eqb a b) eqn:E; [|reflexivity].
    apply str_eqb_eq in E. contradiction.
Qed.

Lemma startsWith_iff (p s : str) :
  startsWith p s = true <-> exists t, s = p ++ t.
Proof.
  revert s. induction p as [|x p IH]; intros s; simpl.
  - split; [intros _; exists s; reflexivity | reflexivity].
  - destruct s as [|c s].
    + split; [discriminate | intros [t Ht]; discriminate].
    + rewrite andb_true_iff, ascii_eqb_eq, IH. split.
      * intros [-> [t ->]]. exists t. reflexivity.
      * intros [t Ht]. injection Ht as -> ->. split; [reflexivity|]. exists t. reflexivity.
Qed.

Lemma startsWith_app (p t : str) : startsWith p (p ++ t) = true.
Proof. apply startsWith_iff. exists t. reflexivity. Qed.

Lemma endsWith_iff (x s : str) :
  endsWith x s = true <-> exists t, s = t ++ x.
Proof.
  unfold endsWith. rewrite startsWith_iff. split.
  - intros [t Ht]. exists (rev t).
    rewrite <- (rev_involutive s), Ht, rev_app_distr, rev_involutive. reflexivity.
  - intros [t ->]. exists (rev t). apply rev_app_distr.
Qed.

Lemma endsWith_app (t x : str) : endsWith x (t ++ x) = true.
Proof. apply endsWith_iff. exists t. reflexivity. Qed.

(** A longer suffix carries the shorter one. *)
Lemma endsWith_weaken (x y s : str) :
  endsWith (x ++ y) s = true -> endsWith y s = true.
Proof.
  rewrite !endsWith_iff. intros [t ->]. exists (t ++ x). apply app_assoc.
Qed.

Lemma indexOf_eq (p s : str) :
  indexOf p s =
  if startsWith p s then Some 0
  else match s with
       | [] => None
       | _ :: s' => option_map S (indexOf p s')
       end.
Proof. destruct s; reflexivity. Qed.

(** A replacer without a dollar sign stands for itself. *)
Lemma expand_plain (r m b a : str) :
  ~ In "$"%char r -> expand r m b a = r.
Proof.
  induction r as [|d r IH]; intro H; [reflexivity|].
  cbn [expand]. destruct (ascii_eqb d "$"%char) eqn:E.
  - exfalso. apply H. left. symmetry. apply Ascii.eqb_eq. exact E.
  - f_equal. apply IH. intro H'. apply H. right. exact H'.
Qed.

Lemma indexOf_prefix (p t : str) : indexOf p (p ++ t) = Some 0.
Proof. rewrite indexOf_eq, startsWith_app. reflexivity. Qed.

(** Replacing a pattern the string starts with. *)
Lemma replace_prefix (p r t : str) :
  replace p r (p ++ t) = expand r p [] t ++ t.
Proof.
  unfold replace. rewrite indexOf_prefix.
  cbn [firstn Nat.add app].
  rewrite skipn_app, skipn_all, Nat.sub_diag. reflexivity.
Qed.

(** Removing the occurrence [indexOf] finds. *)
Lemma replace_indexOf (p s : str) :
  replace p [] s =
  match indexOf p s with
  | Some i => firstn i s ++ skipn (i + length p) s
  | None => s
  end.
Proof. unfold replace. destruct (indexOf p s); reflexivity. Qed.

(** Where [indexOf] finds the pattern, the pattern stands. *)
Lemma indexOf_Some (p s : str) (i : nat) :
  indexOf p s = Some i -> exists t, skipn i s = p ++ t.
Proof.
  revert i. induction s as [|c s IH]; intros i; rewrite indexOf_eq.
  - destruct (startsWith p []) eqn:E; [|discriminate].
    intros [= <-]. apply startsWith_iff in E. exact E.
  - destruct (startsWith p (c :: s)) eqn:E.
    + intros [= <-]. apply startsWith_iff in E. exact E.
    + destruct (indexOf p s) as [j|]; [|discriminate].
      intros [= <-]. simpl. apply IH. reflexivity.
Qed.

(** Before the index [indexOf] gives, the pattern does not stand. *)
Lemma indexOf_first (p s : str) (i j : nat) :
  indexOf p s = Some i -> j < i -> startsWith p (skipn j s) = false.
Proof.
  revert i j. induction s as [|c s IH]; intros i j; rewrite indexOf_eq.
  - destruct (startsWith p []); [intros [= <-]; lia | discriminate].
  - destruct (startsWith p (c :: s)) eqn:E.
    + intros [= <-]. lia.
    + destruct (indexOf p s) as [k|] eqn:Ek; [|discriminate].
      intros [= <-] Hj. destruct j as [|j]; [exact E|].
      simpl. apply (IH k); [reflexivity | lia].
Qed.

Lemma indexOf_None (p s : str) (j : nat) :
  indexOf p s = None -> startsWith p (skipn j s) = false.
Proof.
  revert j. induction s as [|c s IH]; intros j; rewrite indexOf_eq.
  - destruct (startsWith p []) eqn:E; [discriminate|].
    intros _. destruct j; exact E.
  - destruct (startsWith p (c :: s)) eqn:E; [discriminate|].
    destruct (indexOf p s) eqn:Ek; [discriminate|].
    intros _. destruct j as [|j]; [exact E|]. simpl. apply IH. reflexivity.
Qed.

(** [includes] is false exactly when the pattern stands nowhere. *)
Lemma includes_false (p s : str) :
  includes p s = false -> forall a b, s <> a ++ p ++ b.
Proof.
  unfold includes. destruct (indexOf p s) eqn:E; [discriminate|].
  intros _ a b ->.
  pose proof (indexOf_None _ _ (length a) E) as H.
  rewrite skipn_app, skipn_all, Nat.sub_diag in H. simpl in H.
  rewrite startsWith_app in H. discriminate.
Qed.

Lemma includes_true (p a b : str) : includes p (a ++ p ++ b) = true.
Proof.
  destruct (includes p (a ++ p ++ b)) eqn:E; [reflexivity|].
  exfalso. exact (includes_false _ _ E a b eq_refl).
Qed.

(** ** Paths *)

(** The directory of [d/index.js]: the root for the root index, [d]
    otherwise (Node answers [//] for the path [//index.js]). *)
Lemma dirname_index (d : str) :
  dirname (d ++ lit "/index.js") =
  match d with
  | [] => lit "/"
  | c :: d' =>
      if ascii_eqb c slash && Nat.eqb (length d) 1 then lit "//" else d
  end.
Proof.
  destruct d as [|c d']; [reflexivity|].
  unfold dirname.
  change ((c :: d') ++ lit "/index.js") with (c :: (d' ++ lit "/index.js")).
  cbv beta iota zeta.
  replace (length (c :: d' ++ lit "/index.js") - 1)
    with (8 + S (length d')) by (simpl; rewrite length_app; simpl; lia).
  change (c :: d' ++ lit "/index.js") with ((c :: d') ++ lit "/index.js").
  rewrite rev_app_distr.
  change (rev (lit "/index.js")) with (rev (lit "index.js") ++ [slash]).
  rewrite <- app_assoc.
  change (dirname_scan (rev (lit "index.js") ++ [slash] ++ rev (c :: d'))
            (8 + S (length d')) true)
    with (Some (S (length d'))).
  assert (E : firstn (S (length d')) ((c :: d') ++ lit "/index.js") = c :: d').
  { change (S (length d')) with (length (c :: d')).
    rewrite firstn_app, Nat.sub_diag, firstn_all. simpl. rewrite app_nil_r.
    reflexivity. }
  cbv beta iota. rewrite E. reflexivity.
Qed.

Lemma removeSourcePath_append (cfg : config) (r : str) :
  removeSourcePath cfg (SOURCE_PATH cfg ++ r) = r.
Proof. unfold removeSourcePath. apply (replace_prefix (SOURCE_PATH cfg) [] r). Qed.

(** On a file below the source root, the name is computed from its
    root-relative part. *)
Lemma createPathName_append (cfg : config) (r : str) :
  createPathName cfg (SOURCE_PATH cfg ++ r) =
  if endsWith (lit "index.js") r then dirname r else replace (lit ".js") [] r.
Proof. unfold createPathName. rewrite removeSourcePath_append. reflexivity. Qed.

(** The module name determines the path name, among names that start at
    the separator. *)
Lemma createModuleName_inj (cfg : config) (n1 n2 : str) :
  startsWith (lit "/") n1 = true ->
  startsWith (lit "/") n2 = true ->
  createModuleName cfg n1 = createModuleName cfg n2 ->
  n1 = n2.
Proof.
  intros H1 H2. apply startsWith_iff in H1 as [t1 ->], H2 as [t2 ->].
  unfold createModuleName. simpl tail. intro H.
  apply app_inv_head in H.
  destruct t1, t2; simpl in H; try discriminate; [reflexivity|].
  injection H as -> ->. reflexivity.
Qed.

(** A path whose only [.js] is its extension: what precedes it is what
    [replace] leaves. *)
Lemma only_extension (r : str) :
  indexOf (lit ".js") r = Some (length r - 3) ->
  exists b, r = b ++ lit ".js" /\ replace (lit ".js") [] r = b.
Proof.
  intro H. destruct (indexOf_Some _ _ _ H) as [t Ht].
  assert (Hlen : length (skipn (length r - 3) r) = 3 + length t)
    by (rewrite Ht, length_app; reflexivity).
  rewrite length_skipn in Hlen.
  assert (t = []) by (destruct t; [reflexivity | simpl in Hlen; lia]). subst t.
  exists (firstn (length r - 3) r). split.
  - rewrite <- (firstn_skipn (length r - 3) r) at 1. rewrite Ht, app_nil_r.
    reflexivity.
  - rewrite replace_indexOf, H. simpl length.
    replace (length r - 3 + 3) with (length r) by lia.
    rewrite skipn_all. simpl. apply app_nil_r.
Qed.

(** ** Module names *)

Lemma option_nat_eqb_eq (a b : option nat) : option_nat_eqb a b = true -> a = b.
Proof.
  destruct a, b; simpl; try discriminate; [|reflexivity].
  intro H. apply Nat.eqb_eq in H. congruence.
Qed.

(** The two shapes of a plain path, each with the name it is given: a
    directory index [d/index.js], named [d] (the root index: [/]); and
    [n.js], named [n]. *)
Lemma plain_name (cfg : config) (r : str) :
  plain_relative r = true ->
  startsWith (lit "/") (createPathName cfg (SOURCE_PATH cfg ++ r)) = true
  /\ ((endsWith (lit "index.js") r = true
       /\ createPathName cfg (SOURCE_PATH cfg ++ r) = dirname r
       /\ exists d, r = d ++ lit "/index.js"
                    /\ dirname r = match d with [] => lit "/" | _ => d end)
      \/ (endsWith (lit "index.js") r = false
          /\ r = createPathName cfg (SOURCE_PATH cfg ++ r) ++ lit ".js")).
Proof.
  unfold plain_relative. rewrite !andb_true_iff.
  intros [[[Hroot Hnorm] Hext] Hidx].
  apply negb_true_iff in Hnorm.
  apply option_nat_eqb_eq in Hext.
  rewrite createPathName_append.
  destruct (endsWith (lit "index.js") r) eqn:E.
  - change (endsWith (lit "/index.js") r = true) in Hidx.
    apply endsWith_iff in Hidx as [d ->].
    assert (Hd : dirname (d ++ lit "/index.js")
                 = match d with [] => lit "/" | _ => d end).
    { rewrite dirname_index. destruct d as [|c d']; [reflexivity|].
      destruct (ascii_eqb c slash && Nat.eqb (length (c :: d')) 1) eqn:Ec;
        [|reflexivity].
      apply andb_true_iff in Ec as [Ec El].
      apply ascii_eqb_eq in Ec. apply Nat.eqb_eq in El.
      destruct d'; [|discriminate]. subst c. discriminate Hnorm. }
    split.
    + rewrite Hd. destruct d as [|c d']; [reflexivity|].
      apply startsWith_iff in Hroot as [t Ht]. injection Ht as -> _.
      reflexivity.
    + left. split; [reflexivity|]. split; [reflexivity|].
      exists d. split; [reflexivity | exact Hd].
  - destruct (only_extension r Hext) as [b [Hr Hb]]. rewrite Hb.
    split.
    + apply startsWith_iff in Hroot as [t Ht]. rewrite Hr in Ht.
      destruct b as [|c b']; [discriminate Ht|].
      injection Ht as -> _. reflexivity.
    + right. split; [reflexivity | exact Hr].
Qed.

Lemma strip_prefix_append (p r : str) : strip_prefix p (p ++ r) = r.
Proof.
  unfold strip_prefix.
  rewrite startsWith_app, skipn_app, skipn_all, Nat.sub_diag. reflexivity.
Qed.

(** X1. The naming rule, where it holds: for a file below the source root
    whose root-relative path ends with [index.js], or holds [.js] as its
    extension only, the script's module name is the one the specification
    describes (directory of an index file, else the path without its
    extension; the bare package name for the root index). *)
Lemma naming_agrees (cfg : config) (r : str) :
  endsWith (lit "index.js") r = true
  \/ indexOf (lit ".js") r = Some (length r - 3) ->
  moduleName cfg (SOURCE_PATH cfg ++ r) = spec_moduleName cfg (SOURCE_PATH cfg ++ r).
Proof.
  intro H.
  assert (Hname : createPathName cfg (SOURCE_PATH cfg ++ r)
                  = if endsWith (lit "index.js") r then dirname r
                    else remove_extension r).
  { rewrite createPathName_append.
    destruct (endsWith (lit "index.js") r) eqn:E; [reflexivity|].
    destruct H as [H|H]; [discriminate|].
    destruct (only_extension r H) as [b [Hr Hb]]. rewrite Hb.
    unfold remove_extension. rewrite Hr at 1. rewrite endsWith_app.
    rewrite Hr, length_app. simpl length.
    replace (length b + 3 - 3) with (length b) by lia.
    rewrite firstn_app, Nat.sub_diag, firstn_all. simpl. symmetry. apply app_nil_r. }
  unfold moduleName, spec_moduleName, spec_derivedName, createModuleName.
  rewrite strip_prefix_append, Hname.
  destruct (tail _); simpl; [apply app_nil_r | reflexivity].
Qed.

(** [Foo/bar.js] of the demo project. *)
Lemma naming_agrees_witness :
  moduleName Demo.prod (SOURCE_PATH Demo.prod ++ lit "/Foo/bar.js")
  = spec_moduleName Demo.prod (SOURCE_PATH Demo.prod ++ lit "/Foo/bar.js").
Proof.
  apply (naming_agrees Demo.prod (lit "/Foo/bar.js")). right. reflexivity.
Defined.

(** C1. The naming rule of the specification removes the extension of a
    file that is no directory index; [createPathName] removes the first
    [.js] of the path instead. For the eligible file [src/a.js/b.js] of
    package [lib] the script's module name is [lib/a/b.js], where the rule
    gives [lib/a.js/b]. *)
Theorem createPathName_first_js :
  takeFiles {| path := lit "/proj/src/a.js/b.js" |} = true
  /\ moduleName Demo.prod (lit "/proj/src/a.js/b.js") = lit "lib/a/b.js"
  /\ spec_moduleName Demo.prod (lit "/proj/src/a.js/b.js") = lit "lib/a.js/b".
Proof. repeat split; vm_compute; reflexivity. Qed.

(** C2, as stated, fails: [Foo.js] and [Foo/index.js] are two distinct
    eligible files with the one module name [lib/Foo]. *)
Lemma moduleName_not_injective : ~ moduleName_injective Demo.prod.
Proof.
  intro H.
  apply (H (lit "/proj/src/Foo.js") (lit "/proj/src/Foo/index.js")).
  - reflexivity.
  - reflexivity.
  - discriminate.
  - reflexivity.
Qed.

(** C2, amended. Two distinct eligible files whose root-relative paths are
    plain (normalized, [.js] only as the extension, [index.js] only as a
    whole file name) have the same module name exactly when one is a
    directory index and the other is the file named as that directory
    ([dirname + '.js']); every other such pair gets two different names. *)
Theorem moduleName_collision (cfg : config) (r1 r2 : str) :
  plain_relative r1 = true ->
  plain_relative r2 = true ->
  takeFiles {| path := SOURCE_PATH cfg ++ r1 |} = true ->
  takeFiles {| path := SOURCE_PATH cfg ++ r2 |} = true ->
  SOURCE_PATH cfg ++ r1 <> SOURCE_PATH cfg ++ r2 ->
  (moduleName cfg (SOURCE_PATH cfg ++ r1) = moduleName cfg (SOURCE_PATH cfg ++ r2)
   <-> index_of_sibling r1 r2 \/ index_of_sibling r2 r1).
Proof.
  intros P1 P2 _ _ Hneq.
  assert (Hr : r1 <> r2) by (intros ->; apply Hneq; reflexivity).
  destruct (plain_name cfg r1 P1) as [S1 C1].
  destruct (plain_name cfg r2 P2) as [S2 C2].
  assert (Hnames : moduleName cfg (SOURCE_PATH cfg ++ r1)
                   = moduleName cfg (SOURCE_PATH cfg ++ r2)
                   <-> createPathName cfg (SOURCE_PATH cfg ++ r1)
                       = createPathName cfg (SOURCE_PATH cfg ++ r2)).
  { unfold moduleName. split.
    - apply createModuleName_inj; assumption.
    - intros ->. reflexivity. }
  rewrite Hnames. unfold index_of_sibling.
  destruct C1 as [[I1 [N1 [d1 [R1 D1]]]] | [I1 R1]];
    destruct C2 as [[I2 [N2 [d2 [R2 D2]]]] | [I2 R2]].
  - (* two directory indexes *)
    split.
    + rewrite N1, N2, D1, D2. intro E. exfalso. apply Hr.
      rewrite R1, R2. f_equal.
      destruct d1 as [|c1 d1'], d2 as [|c2 d2']; try reflexivity; try exact E.
      * rewrite <- E in R2. rewrite R2 in P2. discriminate P2.
      * rewrite E in R1. rewrite R1 in P1. discriminate P1.
    + intros [[_ [F _]] | [_ [F _]]]; congruence.
  - (* r1 a directory index, r2 not *)
    split.
    + intro E. left. split; [exact I1|]. split; [exact I2|].
      rewrite <- N1, E. exact R2.
    + intros [[_ [_ E]] | [F _]]; [|congruence].
      rewrite R2 in E. apply app_inv_tail in E. rewrite N1. symmetry. exact E.
  - (* r2 a directory index, r1 not *)
    split.
    + intro E. right. split; [exact I2|]. split; [exact I1|].
      rewrite <- N2, <- E. exact R1.
    + intros [[F _] | [_ [_ E]]]; [congruence|].
      rewrite R1 in E. apply app_inv_tail in E. rewrite N2. exact E.
  - (* neither is a directory index *)
    split.
    + intro E. exfalso. apply Hr. rewrite R1, R2, E. reflexivity.
    + intros [[F _] | [F _]]; congruence.
Qed.

(** [Foo/index.js] and [Foo/bar.js] of the demo project: no collision. *)
Lemma moduleName_collision_witness :
  moduleName Demo.prod (SOURCE_PATH Demo.prod ++ lit "/Foo/index.js")
  = moduleName Demo.prod (SOURCE_PATH Demo.prod ++ lit "/Foo/bar.js")
  <-> index_of_sibling (lit "/Foo/index.js") (lit "/Foo/bar.js")
      \/ index_of_sibling (lit "/Foo/bar.js") (lit "/Foo/index.js").
Proof.
  apply (moduleName_collision Demo.prod (lit "/Foo/index.js") (lit "/Foo/bar.js")).
  - reflexivity.
  - reflexivity.
  - reflexivity.
  - reflexivity.
  - discriminate.
Defined.

(** ** The classifier *)

Lemma existsb_false {A} (f : A -> bool) (l : list A) :
  existsb f l = false <-> forall x, In x l -> f x = false.
Proof.
  induction l as [|a l IH]; simpl.
  - split; [intros _ x [] | reflexivity].
  - rewrite orb_false_iff, IH. split.
    + intros [Ha Hl] x [<-|Hx]; [exact Ha | apply Hl, Hx].
    + intro H. split; [apply H; left; reflexivity | intros x Hx; apply H; right; exact Hx].
Qed.

(** C5. [takeFiles] accepts an entry exactly when its path ends in [.js]
    and no pattern of [DO_NOT_BUILD_PATHS] matches it; an entry one pattern
    matches is refused whatever its extension. [takeFiles] is a total
    function to [bool]: a refusal is the value [false], there is no error. *)
Theorem takeFiles_eligible (it : item) :
  (takeFiles it = true
   <-> endsWith (lit ".js") (path it) = true
       /\ forall re, In re DO_NOT_BUILD_PATHS -> RegExp_test re (path it) = false)
  /\ (forall re, In re DO_NOT_BUILD_PATHS ->
                 RegExp_test re (path it) = true -> takeFiles it = false).
Proof.
  unfold takeFiles, isNotIncludedInBuildPaths, anymatch. split.
  - rewrite andb_true_iff, negb_true_iff, existsb_false. reflexivity.
  - intros re Hin Hre.
    apply andb_false_iff. right. apply negb_false_iff.
    apply existsb_exists. exists re. split; assumption.
Qed.

(** ** File-system calls that do not throw *)

Lemma bind_fs_do (w : world) (A : Type) (c : fs_call) (k : unit -> M A)
      (st : state) :
  never_throws w ->
  bind (fs_do w c) k st = k tt (log (Fs c None) st).
Proof. intros [_ Hw]. unfold bind, fs_do. rewrite Hw. reflexivity. Qed.

Lemma forEach_fs_do (w : world) (B : Type) (f : B -> fs_call) (l : list B)
      (st : state) :
  never_throws w ->
  forEach (fun x => fs_do w (f x)) l st
  = (Ret tt, {| trace := trace st ++ map (fun x => Fs (f x) None) l;
                pending := pending st |}).
Proof.
  intro Hw. revert st. induction l as [|x l IH]; intro st; simpl.
  - unfold ret. rewrite app_nil_r. destruct st; reflexivity.
  - rewrite bind_fs_do by exact Hw. rewrite IH. simpl.
    rewrite <- app_assoc. reflexivity.
Qed.

(** The script after a walk that returns: one of the two branches, on
    the modules and externals of the walk's list. *)
Lemma make_walked (cfg : config) (w : world) (st : state) :
  klaw_throws w (SOURCE_PATH cfg) = None ->
  make cfg w st
  = (if isDevelopment cfg
     then development cfg w (loaded_modules cfg w) (loaded_externals cfg w)
     else production cfg w (loaded_modules cfg w) (loaded_externals cfg w))
      (log (Klaw (SOURCE_PATH cfg)) st).
Proof.
  intro H. unfold make. unfold bind at 1. unfold klaw. rewrite H. reflexivity.
Qed.

(** The script when the walk throws: it ends there. *)
Lemma make_walk_throws (cfg : config) (w : world) (st : state) (e : error) :
  klaw_throws w (SOURCE_PATH cfg) = Some e ->
  make cfg w st = (Throw e, log (Klaw (SOURCE_PATH cfg)) st).
Proof.
  intro H. unfold make. unfold bind at 1. unfold klaw. rewrite H. reflexivity.
Qed.

Lemma writePathMapping_ok (cfg : config) (w : world) (format content : str)
      (st : state) :
  never_throws w ->
  writePathMapping cfg w format content st
  = (Ret tt,
     {| trace := trace st
                 ++ [ Fs (mkdirp_sync (resolvePath cfg [DIR_PATH cfg; format])) None;
                      Fs (fs_writeFileSync
                            (resolvePath cfg [DIR_PATH cfg; format; lit "path-mapping.js"])
                            (Text content)) None ];
        pending := pending st |}).
Proof.
  intro Hw. unfold writePathMapping, try_catch.
  rewrite bind_fs_do by exact Hw. unfold fs_do. rewrite (proj2 Hw).
  unfold log. simpl. rewrite <- app_assoc. reflexivity.
Qed.

(** ** The manifest *)

(** ** The text of a manifest *)



Lemma split_plain (sep : ascii) (a : str) :
  ~ In sep a -> split sep a = [a].
Proof.
  induction a as [|c a IH]; intro H; [reflexivity|].
  cbn [split]. destruct (ascii_eqb c sep) eqn:E.
  - exfalso. apply H. left. apply ascii_eqb_eq. exact E.
  - rewrite IH by (intro Hin; apply H; right; exact Hin). reflexivity.
Qed.




(** C9. The CJS and the ESM manifest of one list of files have the same
    keys in the same order, and at each position their values are one root
    and one name around the format: [root/cjs + name], [root/esm + name]. *)
Theorem pathMappings_formats (cfg : config) (files : list str) :
  map key (pathMappings cfg CJS_MODULES files)
  = map key (pathMappings cfg ESM_MODULES files)
  /\ forall i m_cjs m_esm,
      nth_error (pathMappings cfg CJS_MODULES files) i = Some m_cjs ->
      nth_error (pathMappings cfg ESM_MODULES files) i = Some m_esm ->
      key m_cjs = key m_esm
      /\ exists root name,
          value m_cjs = root ++ lit "/" ++ lit "cjs" ++ name
          /\ value m_esm = root ++ lit "/" ++ lit "esm" ++ name.
Proof.
  unfold pathMappings. split.
  - rewrite !map_map. reflexivity.
  - intros i m_cjs m_esm. rewrite !nth_error_map.
    destruct (nth_error files i) as [file|]; [|discriminate].
    simpl. intros [= <-] [= <-]. split; [reflexivity|].
    exists (if isDevelopment cfg then DEV_PATH cfg else pkg_name cfg),
      (createPathName cfg file).
    split; reflexivity.
Qed.

(** ** The package descriptor *)

Lemma get_define_same (k : str) (v : json) (obj : object) :
  get k (define k v obj) = Some v.
Proof.
  induction obj as [|[k0 v0] obj IH]; simpl.
  - rewrite str_eqb_refl. reflexivity.
  - destruct (str_eqb k k0) eqn:E; simpl; rewrite E; [reflexivity | exact IH].
Qed.

Lemma get_define_other (k k' : str) (v : json) (obj : object) :
  str_eqb k k' = false -> get k (define k' v obj) = get k obj.
Proof.
  intro H. induction obj as [|[k0 v0] obj IH]; simpl.
  - rewrite H. reflexivity.
  - destruct (str_eqb k' k0) eqn:E0; simpl.
    + apply str_eqb_eq in E0. subst k0. rewrite H. reflexivity.
    + destruct (str_eqb k k0); [reflexivity | exact IH].
Qed.

Lemma get_set_other (k k' : str) (v : json) (obj : object) :
  str_eqb k k' = false -> get k (set k' v obj) = get k obj.
Proof.
  intro H. unfold set.
  destruct (str_eqb k' (lit "__proto__") && negb (has k' obj)); [reflexivity|].
  apply get_define_other, H.
Qed.

(** Assignment removes no property. *)
Lemma has_set_kept (k k' : str) (v : json) (obj : object) :
  has k obj = true -> has k (set k' v obj) = true.
Proof.
  intro H. destruct (str_eqb k k') eqn:E.
  - apply str_eqb_eq in E. subst k'. unfold set. rewrite H.
    rewrite andb_false_r. unfold has. rewrite get_define_same. reflexivity.
  - unfold has. rewrite get_set_other by exact E. exact H.
Qed.

Lemma has_Object_assign_kept (k : str) (source target : object) :
  has k target = true -> has k (Object_assign target source) = true.
Proof.
  unfold Object_assign. revert target.
  induction source as [|[k0 v0] source IH]; intros target H; [exact H|].
  cbn [fold_left fst snd]. apply IH, has_set_kept, H.
Qed.

(** A key the source lacks keeps the target's value. *)
Lemma get_Object_assign_absent (k : str) (source target : object) :
  existsb (fun kv => str_eqb k (fst kv)) source = false ->
  get k (Object_assign target source) = get k target.
Proof.
  unfold Object_assign. revert target.
  induction source as [|[k0 v0] source IH]; intros target H; simpl in *.
  - reflexivity.
  - apply orb_false_iff in H as [H0 H]. rewrite IH by exact H.
    apply get_set_other. exact H0.
Qed.

Lemma fold_left_filter {A B : Type} (f : A -> B -> A) (p : B -> bool)
      (l : list B) (a : A) :
  fold_left (fun acc x => if p x then acc else f acc x) l a
  = fold_left f (filter (fun x => negb (p x)) l) a.
Proof.
  revert a. induction l as [|x l IH]; intro a; [reflexivity|].
  cbn [fold_left filter]. destruct (p x); cbn [negb fold_left]; apply IH.
Qed.

(** [omit] assigns the properties it keeps to an empty object. *)
Lemma omit_assign (keys : list str) (obj : object) :
  omit keys obj
  = Object_assign [] (filter (fun kv => negb (existsb (str_eqb (fst kv)) keys)) obj).
Proof.
  unfold omit, Object_assign.
  apply (fold_left_filter (fun acc kv => set (fst kv) (snd kv) acc)
           (fun kv => existsb (str_eqb (fst kv)) keys)).
Qed.

Lemma has_existsb (k : str) (obj : object) :
  has k obj = existsb (fun kv => str_eqb k (fst kv)) obj.
Proof.
  unfold has. induction obj as [|[k0 v0] obj IH]; [reflexivity|].
  simpl. destruct (str_eqb k k0); [reflexivity | exact IH].
Qed.

(** The result of [omit] holds none of the omitted keys. *)
Lemma has_omit (k : str) (keys : list str) (obj : object) :
  existsb (str_eqb k) keys = true -> has k (omit keys obj) = false.
Proof.
  intro Hk. rewrite omit_assign. unfold has.
  rewrite get_Object_assign_absent; [reflexivity|].
  apply existsb_false. intros [k0 v0] Hin.
  apply filter_In in Hin as [_ Hk0]. simpl in Hk0. simpl fst.
  destruct (str_eqb k k0) eqn:E; [|reflexivity].
  apply str_eqb_eq in E. subst k0. rewrite Hk in Hk0. discriminate Hk0.
Qed.

(** X2. What holds of the descriptor for every manifest: no [scripts] key,
    the three keys [main], [module] and [sideEffects] present, each with the
    script's fixed value when the manifest has no such key of its own. *)
Lemma prepareJsonObject_fields (obj : object) :
  has (lit "scripts") (prepareJsonObject obj) = false
  /\ has (lit "main") (prepareJsonObject obj) = true
  /\ has (lit "module") (prepareJsonObject obj) = true
  /\ has (lit "sideEffects") (prepareJsonObject obj) = true
  /\ forall k, has k (omit [lit "scripts"] obj) = false ->
               get k (prepareJsonObject obj) = get k packageFields.
Proof.
  unfold prepareJsonObject, merge.
  change (Object_assign [] packageFields) with packageFields.
  assert (H : forall k, has k (omit [lit "scripts"] obj) = false ->
              get k (Object_assign packageFields (omit [lit "scripts"] obj))
              = get k packageFields).
  { intros k Hk. apply get_Object_assign_absent.
    rewrite <- has_existsb. exact Hk. }
  repeat split; try (apply has_Object_assign_kept; reflexivity).
  - unfold has. rewrite H; [reflexivity|]. apply has_omit. reflexivity.
  - exact H.
Qed.

(** C4. The descriptor of a manifest that has a [main] of its own keeps
    that [main]: [pipe] gives the manifest to [merge] as the overriding
    argument. For the demo manifest ([main: 'src/index.js']) the result has
    no [scripts] but its [main] is [src/index.js], not [./cjs/index.js]. *)
Theorem prepareJson_keeps_main :
  get (lit "main") Demo.manifest = Some (JString (lit "src/index.js"))
  /\ has (lit "scripts") (prepareJsonObject Demo.manifest) = false
  /\ get (lit "main") (prepareJsonObject Demo.manifest)
     = Some (JString (lit "src/index.js"))
  /\ get (lit "main") (prepareJsonObject Demo.manifest)
     <> Some (JString (lit "./cjs/index.js")).
Proof. repeat split; try reflexivity. discriminate. Qed.

(** ** The pipelines *)

Lemma trace_log (e : event) (st : state) : trace (log e st) = trace st ++ [e].
Proof. reflexivity. Qed.

Lemma fs_calls_app (a b : list event) : fs_calls (a ++ b) = fs_calls a ++ fs_calls b.
Proof. unfold fs_calls. apply flat_map_app. Qed.

(** C8. [buildPathMapping] never throws: when [mkdirp.sync] or
    [fs.writeFileSync] throws, the error is logged with [console.error]
    and the call returns, so whatever follows it in the pipeline runs, from
    the state the call left. *)
Theorem buildPathMapping_catches
        (cfg : config) (w : world) (format : str) (files : list str) (st : state) :
  let dir := resolvePath cfg [DIR_PATH cfg; format] in
  let file := resolvePath cfg [DIR_PATH cfg; format; lit "path-mapping.js"] in
  let data := Text (pathMappingTemplate (pathMappings cfg format files)) in
  exists st',
    buildPathMapping cfg w format files st = (Ret tt, st')
    /\ pending st' = pending st
    /\ (forall (A : Type) (rest : M A),
           bind (buildPathMapping cfg w format files) (fun _ => rest) st = rest st')
    /\ (forall e,
           fs_throws w (trace st) (mkdirp_sync dir) = Some e ->
           trace st' = trace st ++ [Fs (mkdirp_sync dir) (Some e); ConsoleError e])
    /\ (forall e,
           fs_throws w (trace st) (mkdirp_sync dir) = None ->
           fs_throws w (trace st ++ [Fs (mkdirp_sync dir) None])
                     (fs_writeFileSync file data) = Some e ->
           trace st' = trace st ++ [Fs (mkdirp_sync dir) None;
                                    Fs (fs_writeFileSync file data) (Some e);
                                    ConsoleError e]).
Proof.
  intros dir file data.
  unfold buildPathMapping, writePathMapping, try_catch, bind, fs_do, emit.
  fold dir file data.
  destruct (fs_throws w (trace st) (mkdirp_sync dir)) as [e1|] eqn:E1.
  - eexists. split; [reflexivity|]. split; [reflexivity|]. split.
    + intros A rest. reflexivity.
    + split.
      * intros e [= <-]. simpl. rewrite <- app_assoc. reflexivity.
      * intros e H. discriminate H.
  - rewrite trace_log.
    destruct (fs_throws w (trace st ++ [Fs (mkdirp_sync dir) None])
                        (fs_writeFileSync file data)) as [e2|] eqn:E2.
    + eexists. split; [reflexivity|]. split; [reflexivity|]. split.
      * intros A rest. reflexivity.
      * split; [intros e H; discriminate H|].
        intros e _ [= <-]. simpl. rewrite <- !app_assoc. reflexivity.
    + eexists. split; [reflexivity|]. split; [reflexivity|]. split.
      * intros A rest. reflexivity.
      * split; intros e H; [discriminate H | intro H'; discriminate H'].
Qed.

Lemma on_all_build (cfg : config) (externals : list str) (event file : str)
      (st : state) :
  event = lit "add" \/ event = lit "change" ->
  on_all cfg externals event file st = (Ret tt, dispatched cfg externals file st).
Proof.
  intro Hev. unfold on_all.
  assert (E : str_eqb event (lit "add") || str_eqb event (lit "change") = true)
    by (destruct Hev as [-> | ->]; reflexivity).
  rewrite E.
  unfold dispatched, bind, emit, buildModules_dev, bind, call_async, buildModule,
    start, log.
  cbn [trace pending]. rewrite <- !app_assoc. reflexivity.
Qed.

Lemma on_all_other (cfg : config) (externals : list str) (event file : str)
      (st : state) :
  event <> lit "add" -> event <> lit "change" ->
  on_all cfg externals event file st = (Ret tt, st).
Proof.
  intros Ha Hc. unfold on_all.
  apply str_eqb_neq in Ha, Hc. rewrite Ha, Hc. reflexivity.
Qed.

Lemma fs_calls_start (t : task) (st : state) :
  fs_calls (trace (start t st)) = fs_calls (trace st).
Proof.
  destruct t; simpl; [reflexivity|].
  rewrite fs_calls_app. simpl. apply app_nil_r.
Qed.

Lemma fs_calls_settle (i : nat) (fulfilled : bool) (st : state) :
  fs_calls (trace (settle i fulfilled st)) = fs_calls (trace st).
Proof.
  unfold settle. destruct (nth_error (pending st) i) as [[op k]|]; [|reflexivity].
  destruct fulfilled; [rewrite fs_calls_start|]; simpl;
    rewrite fs_calls_app; simpl; apply app_nil_r.
Qed.

Lemma fs_calls_watch_event (cfg : config) (w : world) (event file : str)
      (st : state) :
  fs_calls (trace (snd (watch_event cfg w event file st))) = fs_calls (trace st).
Proof.
  unfold watch_event.
  destruct (anymatch DO_NOT_BUILD_PATHS file); [reflexivity|].
  destruct (str_eqb event (lit "add")) eqn:Ea;
    [apply str_eqb_eq in Ea; rewrite on_all_build by (left; exact Ea) |].
  - simpl. rewrite fs_calls_app. simpl. apply app_nil_r.
  - destruct (str_eqb event (lit "change")) eqn:Ec;
      [apply str_eqb_eq in Ec; rewrite on_all_build by (right; exact Ec) |].
    + simpl. rewrite fs_calls_app. simpl. apply app_nil_r.
    + rewrite on_all_other by (apply str_eqb_neq; assumption). reflexivity.
Qed.

(** C7. In development, the listener answers [add] and [change] with the
    two [buildModule] calls for that path, one per format, and returns with
    both still pending (none is awaited); on any other event it does
    nothing; and no turn of the event loop after the script's last line
    makes a file-system call, so the manifests written at startup are never
    written again. *)
Theorem watch_dispatch (cfg : config) (w : world) (externals : list str) :
  (forall event file st,
      event = lit "add" \/ event = lit "change" ->
      on_all cfg externals event file st
      = (Ret tt, dispatched cfg externals file st))
  /\ (forall event file st,
         event <> lit "add" -> event <> lit "change" ->
         on_all cfg externals event file st = (Ret tt, st))
  /\ (forall st st',
         turns cfg w st st' -> fs_calls (trace st') = fs_calls (trace st)).
Proof.
  split; [|split].
  - intros event file st. apply on_all_build.
  - intros event file st. apply on_all_other.
  - intros st st' H. induction H as [st | st1 st2 st3 _ IH Hturn].
    + reflexivity.
    + rewrite <- IH. destruct Hturn.
      * apply fs_calls_settle.
      * apply fs_calls_watch_event.
Qed.

(** C10. The listener does not ask for the [.js] extension: an [add] or
    [change] for a path that no ignored pattern matches starts both
    compilations, also when the path does not end in [.js] and [takeFiles]
    refuses it. *)
Theorem watch_event_any_extension
        (cfg : config) (w : world) (event file : str) (st : state) :
  event = lit "add" \/ event = lit "change" ->
  anymatch DO_NOT_BUILD_PATHS file = false ->
  endsWith (lit ".js") file = false ->
  takeFiles {| path := file |} = false
  /\ watch_event cfg w event file st
     = (Ret tt, dispatched cfg (loaded_externals cfg w) file st).
Proof.
  intros Hev Hign Hext. split.
  - unfold takeFiles. simpl path. rewrite Hext. reflexivity.
  - unfold watch_event. rewrite Hign. apply on_all_build. exact Hev.
Qed.

(** An [add] of [src/README.md] while the demo project is watched. *)
Lemma watch_event_any_extension_witness :
  takeFiles {| path := lit "/proj/src/README.md" |} = false
  /\ watch_event Demo.dev Demo.calm (lit "add") (lit "/proj/src/README.md")
       (snd (make Demo.dev Demo.calm initial))
     = (Ret tt,
        dispatched Demo.dev (loaded_externals Demo.dev Demo.calm)
          (lit "/proj/src/README.md") (snd (make Demo.dev Demo.calm initial))).
Proof.
  apply (watch_event_any_extension Demo.dev Demo.calm (lit "add")
           (lit "/proj/src/README.md") (snd (make Demo.dev Demo.calm initial))).
  - left. reflexivity.
  - reflexivity.
  - reflexivity.
Defined.

(** *** The production branch *)

Lemma start_mapAsync (cfg : config) (externals : list str) (format : str)
      (modules : list str) (st : state) :
  start (mapAsync (buildModule cfg externals format) modules) st
  = {| trace := trace st ++ batch_call cfg externals format modules;
       pending := pending st ++ batch_pending cfg externals format modules |}.
Proof.
  destruct modules as [|file rest]; simpl.
  - rewrite !app_nil_r. destruct st; reflexivity.
  - reflexivity.
Qed.

(** Every turn of the event loop adds to the trace and removes nothing. *)
Lemma turn_extends (cfg : config) (w : world) (st st' : state) :
  turn cfg w st st' -> exists later, trace st' = trace st ++ later.
Proof.
  intros [st0 i fulfilled Hi | st0 event file Hdev].
  - unfold settle. destruct (nth_error (pending st0) i) as [[op k]|].
    + destruct fulfilled.
      * destruct k as [|op' k']; simpl.
        -- eexists. reflexivity.
        -- eexists. rewrite <- app_assoc. reflexivity.
      * eexists. reflexivity.
    + exists []. symmetry. apply app_nil_r.
  - unfold watch_event.
    destruct (anymatch DO_NOT_BUILD_PATHS file).
    + exists []. symmetry. apply app_nil_r.
    + destruct (str_eqb event (lit "add")) eqn:Ea;
        [apply str_eqb_eq in Ea; rewrite on_all_build by (left; exact Ea);
         eexists; reflexivity |].
      destruct (str_eqb event (lit "change")) eqn:Ec;
        [apply str_eqb_eq in Ec; rewrite on_all_build by (right; exact Ec);
         eexists; reflexivity |].
      rewrite on_all_other by (apply str_eqb_neq; assumption).
      exists []. symmetry. apply app_nil_r.
Qed.

Lemma turns_extend (cfg : config) (w : world) (st st' : state) :
  turns cfg w st st' -> exists later, trace st' = trace st ++ later.
Proof.
  intro H. induction H as [st | st1 st2 st3 _ [l1 E1] Hturn].
  - exists []. symmetry. apply app_nil_r.
  - destruct (turn_extends cfg w st2 st3 Hturn) as [l2 E2].
    exists (l1 ++ l2). rewrite E2, E1. symmetry. apply app_assoc.
Qed.

(** C3, amended. In production the script walks the source tree once, when
    it is loaded; then it cleans the output directory, creates it, writes
    the package descriptor, copies the static files, writes the CJS and then
    the ESM manifest, and calls the ESM batch and then the CJS batch without
    awaiting either: when the script's last line has run, the first call of
    each batch is pending, the CJS one issued right after the ESM one, and
    every later turn of the event loop only adds to that trace. *)
Theorem production_order (cfg : config) (w : world) :
  isDevelopment cfg = false ->
  never_throws w ->
  let modules := loaded_modules cfg w in
  let externals := loaded_externals cfg w in
  exists st,
    make cfg w initial = (Ret tt, st)
    /\ trace st
       = Klaw (SOURCE_PATH cfg)
         :: map (fun c => Fs c None) (production_calls cfg modules)
         ++ batch_call cfg externals ESM_MODULES modules
         ++ batch_call cfg externals CJS_MODULES modules
    /\ pending st
       = batch_pending cfg externals ESM_MODULES modules
         ++ batch_pending cfg externals CJS_MODULES modules
    /\ forall st', turns cfg w st st' -> exists later, trace st' = trace st ++ later.
Proof.
  intros Hdev Hw modules externals.
  rewrite make_walked by apply Hw. rewrite Hdev.
  fold modules. fold externals.
  unfold production, cleanFolder, createFolder, createPackageJson, copyFiles.
  rewrite !bind_fs_do by exact Hw.
  unfold bind at 1. rewrite forEach_fs_do by exact Hw.
  unfold buildCjsPathMapping, buildEsmPathMapping, buildPathMapping.
  unfold bind at 1. rewrite writePathMapping_ok by exact Hw.
  unfold bind at 1. rewrite writePathMapping_ok by exact Hw.
  unfold bind, buildModules, call_async. rewrite !start_mapAsync.
  unfold DIR_PATH. rewrite Hdev.
  eexists. split; [reflexivity|]. split; [|split].
  - cbn [trace pending log initial]. unfold production_calls.
    rewrite !map_app, <- !app_assoc. reflexivity.
  - reflexivity.
  - apply turns_extend.
Qed.

(** The demo project, where nothing throws. *)
Lemma production_order_witness :
  exists st,
    make Demo.prod Demo.calm initial = (Ret tt, st)
    /\ trace st
       = Klaw (SOURCE_PATH Demo.prod)
         :: map (fun c => Fs c None)
              (production_calls Demo.prod (loaded_modules Demo.prod Demo.calm))
         ++ batch_call Demo.prod (loaded_externals Demo.prod Demo.calm) ESM_MODULES
              (loaded_modules Demo.prod Demo.calm)
         ++ batch_call Demo.prod (loaded_externals Demo.prod Demo.calm) CJS_MODULES
              (loaded_modules Demo.prod Demo.calm)
    /\ pending st
       = batch_pending Demo.prod (loaded_externals Demo.prod Demo.calm) ESM_MODULES
           (loaded_modules Demo.prod Demo.calm)
         ++ batch_pending Demo.prod (loaded_externals Demo.prod Demo.calm) CJS_MODULES
              (loaded_modules Demo.prod Demo.calm)
    /\ forall st', turns Demo.prod Demo.calm st st' ->
                   exists later, trace st' = trace st ++ later.
Proof.
  apply (production_order Demo.prod Demo.calm).
  - reflexivity.
  - split; intros; reflexivity.
Defined.

Lemma nondecreasing_app (a b : list nat) :
  nondecreasing (a ++ b) = true -> nondecreasing a = true.
Proof.
  induction a as [|x a IH]; [reflexivity|].
  destruct a as [|y a']; [reflexivity|].
  change ((x :: y :: a') ++ b) with (x :: (y :: a') ++ b).
  change (nondecreasing (x :: (y :: a') ++ b))
    with (Nat.leb x y && nondecreasing ((y :: a') ++ b)).
  change (nondecreasing (x :: y :: a'))
    with (Nat.leb x y && nondecreasing (y :: a')).
  rewrite !andb_true_iff. intros [Hxy H]. split; [exact Hxy | apply IH, H].
Qed.

Lemma esm_awaited_app (n : nat) (a b : list event) :
  esm_awaited n (a ++ b) = true -> esm_awaited n a = true.
Proof.
  revert n. induction a as [|e a IH]; intro n; [reflexivity|].
  simpl. destruct e; try apply IH.
  - destruct (str_eqb (op_format op) ESM_MODULES); [apply IH|].
    rewrite !andb_true_iff. intros [H0 H]. split; [exact H0 | apply IH, H].
  - destruct (str_eqb (op_format op) ESM_MODULES); apply IH.
Qed.

(** A run that has left the specified order never returns to it. *)
Lemma production_as_specified_app (cfg : config) (tr later : list event) :
  production_as_specified cfg tr = false ->
  production_as_specified cfg (tr ++ later) = false.
Proof.
  intro H.
  destruct (production_as_specified cfg (tr ++ later)) eqn:E; [|reflexivity].
  unfold production_as_specified in *.
  apply andb_true_iff in E as [E1 E2].
  unfold spec_steps in E1. rewrite flat_map_app in E1.
  apply nondecreasing_app in E1. apply esm_awaited_app in E2.
  unfold spec_steps in H. rewrite E1, E2 in H. discriminate H.
Qed.

(** C3, as stated, fails on the demo project. Numbered as the specification
    orders them, the steps of the run are 3 (discover), 1, 2, then 5
    (package descriptor) and 6 (static files) before 4 (manifests); and the
    first CJS call is issued while the first ESM call is outstanding.
    Nothing that happens later repairs either. *)
Lemma production_not_as_specified :
  spec_steps Demo.prod (trace (snd (make Demo.prod Demo.calm initial)))
  = [3; 1; 2; 5; 6; 6; 6; 6; 6; 6; 4; 4; 4; 4; 7; 8]
  /\ esm_awaited 0 (trace (snd (make Demo.prod Demo.calm initial))) = false
  /\ production_as_specified Demo.prod
       (trace (snd (make Demo.prod Demo.calm initial))) = false
  /\ forall st',
      turns Demo.prod Demo.calm (snd (make Demo.prod Demo.calm initial)) st' ->
      production_as_specified Demo.prod (trace st') = false.
Proof.
  split; [vm_compute; reflexivity|].
  split; [vm_compute; reflexivity|].
  split; [vm_compute; reflexivity|].
  intros st' H. destruct (turns_extend _ _ _ _ H) as [later ->].
  apply production_as_specified_app. vm_compute. reflexivity.
Qed.

(** *** The externals and the first scenario *)

(** The externals given to rollup are the module names of the eligible
    entries, in the order of the walk. *)
Lemma createExternals_moduleNames (cfg : config) (paths : list item) :
  createExternals cfg paths = map (moduleName cfg) (takeModules paths).
Proof.
  unfold createExternals, takeModules.
  assert (H : forall (l : list item) (acc : list str),
             fold_left
               (fun acc file =>
                  acc ++ [createModuleName cfg (createPathName cfg (path file))])
               l acc
             = acc ++ map (moduleName cfg) (map path l)).
  { induction l as [|x l IH]; intro acc; simpl.
    - symmetry. apply app_nil_r.
    - rewrite IH, <- app_assoc. reflexivity. }
  apply (H (filter takeFiles paths) []).
Qed.

(** The first scenario of the specification: of the tree [index.js],
    [Foo/index.js], [Foo/bar.js], [Foo/__tests__/bar.test.js] in package
    [lib], the test file is refused and the three others are named [lib],
    [lib/Foo] and [lib/Foo/bar]. *)
Lemma scenario_tree :
  takeModules Demo.tree
  = [lit "/proj/src/Foo/bar.js"; lit "/proj/src/Foo/index.js"; lit "/proj/src/index.js"]
  /\ map (moduleName Demo.prod) (takeModules Demo.tree)
     = [lit "lib/Foo/bar"; lit "lib/Foo"; lit "lib"]
  /\ takeFiles {| path := lit "/proj/src/Foo/__tests__/bar.test.js" |} = false.
Proof. repeat split; vm_compute; reflexivity. Qed.

(** *** The development branch *)

(** X5. In development, when neither the walk nor a file-system call
    throws, the script walks the source tree, cleans and creates the
    development directory, writes the CJS and then the ESM manifest and
    starts the watcher; no compilation is pending when its last line has
    run. *)
Lemma development_startup (cfg : config) (w : world) :
  isDevelopment cfg = true ->
  never_throws w ->
  make cfg w initial
  = (Ret tt,
     {| trace := Klaw (SOURCE_PATH cfg)
                 :: map (fun c => Fs c None)
                      (development_calls cfg (loaded_modules cfg w))
                 ++ [Watch (resolvePath cfg [lit "src"]) DO_NOT_BUILD_PATHS];
        pending := [] |}).
Proof.
  intros Hdev Hw.
  rewrite make_walked by apply Hw. rewrite Hdev.
  unfold development, cleanFolder, createFolder.
  rewrite !bind_fs_do by exact Hw.
  unfold buildCjsPathMapping, buildEsmPathMapping, buildPathMapping.
  unfold bind at 1. rewrite writePathMapping_ok by exact Hw.
  unfold bind at 1. rewrite writePathMapping_ok by exact Hw.
  unfold emit, DIR_PATH. rewrite Hdev. reflexivity.
Qed.

Lemma development_startup_witness :
  make Demo.dev Demo.calm initial
  = (Ret tt,
     {| trace := Klaw (SOURCE_PATH Demo.dev)
                 :: map (fun c => Fs c None)
                      (development_calls Demo.dev (loaded_modules Demo.dev Demo.calm))
                 ++ [Watch (resolvePath Demo.dev [lit "src"]) DO_NOT_BUILD_PATHS];
        pending := [] |}).
Proof.
  apply (development_startup Demo.dev Demo.calm).
  - reflexivity.
  - split; intros; reflexivity.
Defined.

(** A production run in which both manifest directories cannot be
    created: each failure is printed, the script ends normally, and the two
    batches are started all the same. *)
Lemma production_readonly :
  fst (make Demo.prod Demo.readonly initial) = Ret tt
  /\ filter (fun e => match e with ConsoleError _ => true | _ => false end)
       (trace (snd (make Demo.prod Demo.readonly initial)))
     = [ConsoleError Demo.EACCES; ConsoleError Demo.EACCES]
  /\ map (fun p => op_format (fst p))
       (pending (snd (make Demo.prod Demo.readonly initial)))
     = [ESM_MODULES; CJS_MODULES].
Proof. repeat split; vm_compute; reflexivity. Qed.

(** ** Where the outputs go *)

Lemma startsWith_app_head (a x y : str) :
  startsWith (a ++ x) (a ++ y) = startsWith x y.
Proof.
  induction a as [|c a IH]; [reflexivity|].
  simpl. rewrite ascii_eqb_refl. exact IH.
Qed.

(** What [path.resolve] makes of a last segment that is a plain name:
    it is appended to a base that the segments before it decide. *)
Lemma path_resolve_last (segments : list str) :
  exists base,
    forall seg,
      seg <> [] -> startsWith [slash] seg = false ->
      path_resolve (segments ++ [seg]) = base ++ seg.
Proof.
  unfold path_resolve.
  set (step := fun acc seg =>
                 if startsWith [slash] seg then seg
                 else match seg with
                      | [] => acc
                      | _ => if endsWith [slash] acc then acc ++ seg
                             else acc ++ [slash] ++ seg
                      end).
  set (acc := fold_left step segments []).
  exists (if endsWith [slash] acc then acc else acc ++ [slash]).
  intros seg Hne Hrel. rewrite fold_left_app. fold acc. simpl. unfold step.
  rewrite Hrel. destruct seg as [|c seg]; [contradiction|].
  destruct (endsWith [slash] acc); [reflexivity|].
  rewrite <- app_assoc. reflexivity.
Qed.

(** The three directories of the script are children of one base. *)
Lemma directories_share_base (cfg : config) :
  exists base,
    SOURCE_PATH cfg = base ++ lit "src"
    /\ DIST_PATH cfg = base ++ lit "dist"
    /\ DEV_PATH cfg = base ++ lit "dev".
Proof.
  destruct (path_resolve_last [project_root cfg]) as [base H].
  exists base. unfold SOURCE_PATH, DIST_PATH, DEV_PATH, resolvePath.
  repeat split; apply (H _); (discriminate || reflexivity).
Qed.

(** The two format directories are children of one base. *)
Lemma formats_share_base (cfg : config) :
  exists base,
    resolvePath cfg [DIR_PATH cfg; CJS_MODULES] = base ++ lit "cjs"
    /\ resolvePath cfg [DIR_PATH cfg; ESM_MODULES] = base ++ lit "esm".
Proof.
  destruct (path_resolve_last [project_root cfg; DIR_PATH cfg]) as [base H].
  exists base. unfold resolvePath.
  split; apply (H _); (discriminate || reflexivity).
Qed.

Lemma replace_absent (p r s : str) : indexOf p s = None -> replace p r s = s.
Proof. intro H. unfold replace. rewrite H. reflexivity. Qed.

(** A string in which [includes] finds no dollar sign has none. *)
Lemma includes_dollar (s : str) :
  includes (lit "$") s = false -> ~ In "$"%char s.
Proof.
  unfold includes. induction s as [|c s IH]; intros H Hin; [exact Hin|].
  rewrite indexOf_eq in H. change (lit "$") with ["$"%char] in H, IH.
  cbn [startsWith] in H. rewrite andb_true_r in H.
  destruct (ascii_eqb "$"%char c) eqn:E; [discriminate H|].
  destruct Hin as [-> | Hin].
  - unfold ascii_eqb in E. rewrite Ascii.eqb_refl in E. discriminate E.
  - apply IH; [|exact Hin].
    destruct (indexOf ["$"%char] s); [discriminate H | reflexivity].
Qed.

(** [path.resolve] invents no character but the separator. *)
Lemma path_resolve_chars (c : ascii) (segments : list str) :
  In c (path_resolve segments) ->
  c = slash \/ exists seg, In seg segments /\ In c seg.
Proof.
  unfold path_resolve.
  set (step := fun acc seg =>
                 if startsWith [slash] seg then seg
                 else match seg with
                      | [] => acc
                      | _ => if endsWith [slash] acc then acc ++ seg
                             else acc ++ [slash] ++ seg
                      end).
  assert (G : forall segs acc,
             In c (fold_left step segs acc) ->
             c = slash \/ In c acc \/ exists seg, In seg segs /\ In c seg).
  { induction segs as [|seg segs IH]; intros acc H.
    - right. left. exact H.
    - cbn [fold_left] in H. apply IH in H.
      destruct H as [H | [H | [seg' [Hs Hc]]]].
      + left. exact H.
      + assert (Hstep : c = slash \/ In c acc \/ In c seg).
        { unfold step in H. destruct (startsWith [slash] seg).
          - right. right. exact H.
          - destruct seg as [|x seg0]; [right; left; exact H|].
            destruct (endsWith [slash] acc).
            + apply in_app_or in H. destruct H; [right; left | right; right]; assumption.
            + apply in_app_or in H. destruct H as [H | H]; [right; left; exact H|].
              apply in_app_or in H. destruct H as [[<- | []] | H];
                [left; reflexivity | right; right; exact H]. }
        destruct Hstep as [Hc | [Hc | Hc]].
        * left. exact Hc.
        * right. left. exact Hc.
        * right. right. exists seg. split; [left; reflexivity | exact Hc].
      + right. right. exists seg'. split; [right; exact Hs | exact Hc]. }
  intro H. apply G in H. destruct H as [H | [[] | H]]; [left | right]; exact H.
Qed.

(** Below a project root without a dollar sign, a format's directory has
    none either. *)
Lemma format_directory_plain (cfg : config) (format : str) :
  includes (lit "$") (project_root cfg) = false ->
  includes (lit "$") format = false ->
  ~ In "$"%char (resolvePath cfg [DIR_PATH cfg; format]).
Proof.
  intros Hroot Hfmt H.
  apply includes_dollar in Hroot. apply includes_dollar in Hfmt.
  assert (Hdir : ~ In "$"%char (DIR_PATH cfg)).
  { intro Hd. unfold DIR_PATH, DEV_PATH, DIST_PATH, resolvePath in Hd.
    destruct (isDevelopment cfg);
      apply path_resolve_chars in Hd;
      (destruct Hd as [Hd | [seg [[<- | [<- | []]] Hc]]];
       [discriminate Hd | exact (Hroot Hc) |]);
      cbn in Hc; repeat (destruct Hc as [Hc | Hc]; [discriminate Hc|]); exact Hc. }
  unfold resolvePath in H. apply path_resolve_chars in H.
  destruct H as [H | [seg [[<- | [<- | [<- | []]]] Hc]]].
  - discriminate H.
  - exact (Hroot Hc).
  - exact (Hdir Hc).
  - exact (Hfmt Hc).
Qed.

(** X6. The output file of a source file, in a project whose root holds no
    dollar sign (a dollar sign of the replacement text is a pattern of
    [replace]): for a file below the source root it is the file's
    root-relative path, extension kept, below [DIR_PATH/format]; so two
    source files never share an output file in one format, and no CJS output
    is an ESM output. A path that does not hold the source root is its own
    output path. *)
Theorem createModulePath_outputs (cfg : config) (format : str) :
  includes (lit "$") (project_root cfg) = false ->
  includes (lit "$") format = false ->
  (forall r,
      createModulePath cfg format (SOURCE_PATH cfg ++ r)
      = resolvePath cfg [DIR_PATH cfg; format] ++ r)
  /\ (forall r1 r2,
         createModulePath cfg format (SOURCE_PATH cfg ++ r1)
         = createModulePath cfg format (SOURCE_PATH cfg ++ r2) ->
         r1 = r2)
  /\ (forall r1 r2,
         createModulePath cfg CJS_MODULES (SOURCE_PATH cfg ++ r1)
         <> createModulePath cfg ESM_MODULES (SOURCE_PATH cfg ++ r2))
  /\ (forall file,
         indexOf (SOURCE_PATH cfg) file = None ->
         createModulePath cfg format file = file).
Proof.
  intros Hroot Hformat.
  assert (H1 : forall fmt r,
             includes (lit "$") fmt = false ->
             createModulePath cfg fmt (SOURCE_PATH cfg ++ r)
             = resolvePath cfg [DIR_PATH cfg; fmt] ++ r).
  { intros fmt r Hfmt. unfold createModulePath. rewrite replace_prefix.
    rewrite expand_plain by (apply format_directory_plain; assumption).
    reflexivity. }
  split; [intro r; apply H1; exact Hformat|]. split; [|split].
  - intros r1 r2. rewrite !H1 by exact Hformat. apply app_inv_head.
  - intros r1 r2. rewrite !H1 by reflexivity.
    destruct (formats_share_base cfg) as [base [-> ->]].
    rewrite <- !app_assoc. intro E. apply app_inv_head in E. discriminate E.
  - intros file H. unfold createModulePath. apply replace_absent, H.
Qed.

(** The ESM outputs of the demo project. *)
Lemma createModulePath_outputs_witness :
  (forall r,
      createModulePath Demo.prod ESM_MODULES (SOURCE_PATH Demo.prod ++ r)
      = resolvePath Demo.prod [DIR_PATH Demo.prod; ESM_MODULES] ++ r)
  /\ (forall r1 r2,
         createModulePath Demo.prod ESM_MODULES (SOURCE_PATH Demo.prod ++ r1)
         = createModulePath Demo.prod ESM_MODULES (SOURCE_PATH Demo.prod ++ r2) ->
         r1 = r2)
  /\ (forall r1 r2,
         createModulePath Demo.prod CJS_MODULES (SOURCE_PATH Demo.prod ++ r1)
         <> createModulePath Demo.prod ESM_MODULES (SOURCE_PATH Demo.prod ++ r2))
  /\ (forall file,
         indexOf (SOURCE_PATH Demo.prod) file = None ->
         createModulePath Demo.prod ESM_MODULES file = file).
Proof.
  apply (createModulePath_outputs Demo.prod ESM_MODULES).
  - reflexivity.
  - reflexivity.
Defined.

Lemma endsWith_slash_dev (base : str) : endsWith [slash] (base ++ lit "dev") = false.
Proof. unfold endsWith. rewrite rev_app_distr. reflexivity. Qed.

Lemma path_resolve_snoc (segments : list str) (seg : str) :
  seg <> [] -> startsWith [slash] seg = false ->
  path_resolve (segments ++ [seg])
  = if endsWith [slash] (path_resolve segments)
    then path_resolve segments ++ seg
    else path_resolve segments ++ [slash] ++ seg.
Proof.
  intros Hne Hrel. unfold path_resolve. rewrite fold_left_app. cbn [fold_left].
  rewrite Hrel. destruct seg; [contradiction | reflexivity].
Qed.

Lemma path_resolve_absolute (segments : list str) (seg : str) :
  startsWith [slash] seg = true -> path_resolve (segments ++ [seg]) = seg.
Proof.
  intro Habs. unfold path_resolve. rewrite fold_left_app. cbn [fold_left].
  rewrite Habs. reflexivity.
Qed.

(** With an absolute project root, a format's directory in development is
    [DEV_PATH/format]. *)
Lemma resolvePath_dev_format (cfg : config) (format : str) :
  startsWith (lit "/") (project_root cfg) = true ->
  format = CJS_MODULES \/ format = ESM_MODULES ->
  resolvePath cfg [DEV_PATH cfg; format] = DEV_PATH cfg ++ lit "/" ++ format.
Proof.
  intros Habs Hfmt.
  assert (Hroot : path_resolve [project_root cfg] = project_root cfg)
    by (apply (path_resolve_absolute [] (project_root cfg)); exact Habs).
  assert (Hs : startsWith [slash] (DEV_PATH cfg) = true).
  { unfold DEV_PATH, resolvePath.
    change [project_root cfg; lit "dev"] with ([project_root cfg] ++ [lit "dev"]).
    rewrite path_resolve_snoc by (discriminate || reflexivity).
    rewrite Hroot. apply startsWith_iff in Habs as [t ->].
    destruct (endsWith [slash] (lit "/" ++ t)); reflexivity. }
  assert (He : endsWith [slash] (DEV_PATH cfg) = false).
  { destruct (directories_share_base cfg) as [base [_ [_ ->]]].
    apply endsWith_slash_dev. }
  unfold resolvePath.
  change [project_root cfg; DEV_PATH cfg; format]
    with ([project_root cfg; DEV_PATH cfg] ++ [format]).
  rewrite path_resolve_snoc
    by (destruct Hfmt as [-> | ->]; (discriminate || reflexivity)).
  change [project_root cfg; DEV_PATH cfg]
    with ([project_root cfg] ++ [DEV_PATH cfg]).
  rewrite path_resolve_absolute by exact Hs.
  rewrite He. reflexivity.
Qed.

(** X7. In development the manifest points at the compiler's output, in a
    project whose root holds no dollar sign: for a plain file below the
    source root, the location of its manifest entry, followed by [.js] (or
    by [/index.js], [index.js] for a directory index and the root index), is
    the path [buildModule] has the bundle written to. *)
Theorem dev_manifest_locates_output
        (cfg : config) (format : str) (files : list str) (r : str) :
  isDevelopment cfg = true ->
  startsWith (lit "/") (project_root cfg) = true ->
  includes (lit "$") (project_root cfg) = false ->
  format = CJS_MODULES \/ format = ESM_MODULES ->
  plain_relative r = true ->
  In (SOURCE_PATH cfg ++ r) files ->
  exists m suffix,
    In m (pathMappings cfg format files)
    /\ key m = moduleName cfg (SOURCE_PATH cfg ++ r)
    /\ In suffix [lit ".js"; lit "/index.js"; lit "index.js"]
    /\ createModulePath cfg format (SOURCE_PATH cfg ++ r) = value m ++ suffix.
Proof.
  intros Hdev Habs Hroot Hfmt Hplain Hin.
  set (file := SOURCE_PATH cfg ++ r) in *.
  exists {| key := moduleName cfg file;
            value := DEV_PATH cfg ++ lit "/" ++ format ++ createPathName cfg file |}.
  assert (Hout : createModulePath cfg format file
                 = DEV_PATH cfg ++ lit "/" ++ format ++ r).
  { unfold file, createModulePath. rewrite replace_prefix.
    rewrite expand_plain
      by (apply format_directory_plain;
          [exact Hroot | destruct Hfmt as [-> | ->]; reflexivity]).
    unfold DIR_PATH. rewrite Hdev.
    rewrite resolvePath_dev_format by assumption.
    rewrite <- !app_assoc. reflexivity. }
  assert (Hentry : In {| key := moduleName cfg file;
                         value := DEV_PATH cfg ++ lit "/" ++ format
                                  ++ createPathName cfg file |}
                      (pathMappings cfg format files)).
  { unfold pathMappings. apply in_map_iff. exists file. split; [|exact Hin].
    rewrite Hdev. reflexivity. }
  destruct (plain_name cfg r Hplain) as [_ [[_ [N [d [R D]]]] | [_ R]]];
    fold file in N || fold file in R.
  - destruct d as [|c d'].
    + exists (lit "index.js"). split; [exact Hentry|]. split; [reflexivity|].
      split; [right; right; left; reflexivity|].
      rewrite Hout. cbn [value]. rewrite N, D, R. rewrite <- !app_assoc. reflexivity.
    + exists (lit "/index.js"). split; [exact Hentry|]. split; [reflexivity|].
      split; [right; left; reflexivity|].
      rewrite Hout. cbn [value]. rewrite N, D. rewrite R at 1.
      rewrite <- !app_assoc. reflexivity.
  - exists (lit ".js"). split; [exact Hentry|]. split; [reflexivity|].
    split; [left; reflexivity|].
    rewrite Hout. cbn [value]. rewrite R at 1. rewrite <- !app_assoc. reflexivity.
Qed.

(** [Foo/bar.js] in the demo project, watched. *)
Lemma dev_manifest_locates_output_witness :
  exists m suffix,
    In m (pathMappings Demo.dev CJS_MODULES (takeModules Demo.tree))
    /\ key m = moduleName Demo.dev (SOURCE_PATH Demo.dev ++ lit "/Foo/bar.js")
    /\ In suffix [lit ".js"; lit "/index.js"; lit "index.js"]
    /\ createModulePath Demo.dev CJS_MODULES (SOURCE_PATH Demo.dev ++ lit "/Foo/bar.js")
       = value m ++ suffix.
Proof.
  apply (dev_manifest_locates_output Demo.dev CJS_MODULES (takeModules Demo.tree)
           (lit "/Foo/bar.js")).
  - reflexivity.
  - reflexivity.
  - reflexivity.
  - left. reflexivity.
  - reflexivity.
  - left. reflexivity.
Defined.

(** ** Lookups in the package descriptor *)

Lemma get_absent (k : str) (obj : object) :
  ~ In k (map fst obj) -> get k obj = None.
Proof.
  induction obj as [|[k0 v0] obj IH]; simpl; intro H; [reflexivity|].
  destruct (str_eqb k k0) eqn:E.
  - apply str_eqb_eq in E. exfalso. apply H. left. symmetry. exact E.
  - apply IH. intro Hin. apply H. right. exact Hin.
Qed.

(** [Object.assign] to a target without a [__proto__] of its own: that key
    is never added; any other key of the source takes the source's value,
    and the remaining keys keep the target's. *)
Lemma get_Object_assign (k : str) (source target : object) :
  NoDup (map fst source) ->
  has (lit "__proto__") target = false ->
  get k (Object_assign target source)
  = if str_eqb k (lit "__proto__") then None
    else match get k source with
         | Some v => Some v
         | None => get k target
         end.
Proof.
  unfold Object_assign. revert target.
  induction source as [|[k0 v0] source IH]; intros target Hnd Ht.
  - cbn [fold_left get]. destruct (str_eqb k (lit "__proto__")) eqn:E; [|reflexivity].
    apply str_eqb_eq in E. subst k. unfold has in Ht.
    destruct (get (lit "__proto__") target); [discriminate Ht | reflexivity].
  - simpl in Hnd. apply NoDup_cons_iff in Hnd as [Hk0 Hnd].
    cbn [fold_left fst snd]. unfold set.
    destruct (str_eqb k0 (lit "__proto__")) eqn:E0.
    + apply str_eqb_eq in E0. subst k0. rewrite Ht. cbn [negb andb].
      rewrite IH by assumption.
      destruct (str_eqb k (lit "__proto__")) eqn:E; [reflexivity|].
      cbn [get]. rewrite E. reflexivity.
    + cbn [andb].
      assert (Ht' : has (lit "__proto__") (define k0 v0 target) = false).
      { unfold has. rewrite get_define_other; [exact Ht|].
        apply str_eqb_neq. apply str_eqb_neq in E0.
        intro E. apply E0. symmetry. exact E. }
      rewrite IH by assumption.
      destruct (str_eqb k (lit "__proto__")) eqn:E; [reflexivity|].
      cbn [get]. destruct (str_eqb k k0) eqn:Ek.
      * apply str_eqb_eq in Ek. subst k0.
        rewrite (get_absent k source Hk0). apply get_define_same.
      * destruct (get k source); [reflexivity|]. apply get_define_other, Ek.
Qed.

Lemma keys_define (k : str) (v : json) (obj : object) :
  map fst (define k v obj)
  = if existsb (str_eqb k) (map fst obj) then map fst obj
    else map fst obj ++ [k].
Proof.
  induction obj as [|[k0 v0] obj IH]; [reflexivity|].
  simpl. destruct (str_eqb k k0) eqn:E; simpl; [reflexivity|].
  rewrite IH. destruct (existsb (str_eqb k) (map fst obj)); reflexivity.
Qed.

Lemma NoDup_keys_set (k : str) (v : json) (obj : object) :
  NoDup (map fst obj) -> NoDup (map fst (set k v obj)).
Proof.
  intro H. unfold set.
  destruct (str_eqb k (lit "__proto__") && negb (has k obj)); [exact H|].
  rewrite keys_define.
  destruct (existsb (str_eqb k) (map fst obj)) eqn:E; [exact H|].
  apply NoDup_app; [exact H | repeat constructor; intros [] |].
  intros x Hx [Hk|[]]. subst x.
  assert (F : str_eqb k k = false)
    by (apply (proj1 (existsb_false (str_eqb k) (map fst obj)) E), Hx).
  rewrite str_eqb_refl in F. discriminate F.
Qed.

Lemma NoDup_keys_Object_assign (source target : object) :
  NoDup (map fst target) -> NoDup (map fst (Object_assign target source)).
Proof.
  unfold Object_assign. revert target.
  induction source as [|[k0 v0] source IH]; intros target H; [exact H|].
  simpl. apply IH, NoDup_keys_set, H.
Qed.

Lemma get_filter_keys (k : str) (keys : list str) (obj : object) :
  get k (filter (fun kv => negb (existsb (str_eqb (fst kv)) keys)) obj)
  = if existsb (str_eqb k) keys then None else get k obj.
Proof.
  induction obj as [|[k0 v0] obj IH]; simpl.
  - destruct (existsb (str_eqb k) keys); reflexivity.
  - destruct (existsb (str_eqb k0) keys) eqn:E0; simpl.
    + rewrite IH. destruct (str_eqb k k0) eqn:E; [|reflexivity].
      apply str_eqb_eq in E. subst k0. rewrite E0. reflexivity.
    + rewrite IH. destruct (str_eqb k k0) eqn:E; [|reflexivity].
      apply str_eqb_eq in E. subst k0. rewrite E0. reflexivity.
Qed.

Lemma NoDup_keys_filter (keys : list str) (obj : object) :
  NoDup (map fst obj) ->
  NoDup (map fst (filter (fun kv => negb (existsb (str_eqb (fst kv)) keys)) obj)).
Proof.
  induction obj as [|[k0 v0] obj IH]; simpl; intro H; [exact H|].
  apply NoDup_cons_iff in H as [Hk0 H].
  destruct (negb (existsb (str_eqb k0) keys)); simpl; [|apply IH, H].
  constructor; [|apply IH, H].
  intro Hin. apply Hk0. apply in_map_iff in Hin as [[k1 v1] [E Hin]].
  apply filter_In in Hin as [Hin _]. apply in_map_iff. exists (k1, v1).
  split; assumption.
Qed.

(** What [omit] leaves of an object with distinct keys: the omitted keys
    and [__proto__] are gone, every other key keeps its value. *)
Lemma get_omit (k : str) (keys : list str) (obj : object) :
  NoDup (map fst obj) ->
  get k (omit keys obj)
  = if str_eqb k (lit "__proto__") || existsb (str_eqb k) keys then None
    else get k obj.
Proof.
  intro Hnd. rewrite omit_assign.
  rewrite get_Object_assign by (apply NoDup_keys_filter, Hnd || reflexivity).
  rewrite get_filter_keys. cbn [get].
  destruct (str_eqb k (lit "__proto__")); [reflexivity|]. cbn [orb].
  destruct (existsb (str_eqb k) keys); [reflexivity|].
  destruct (get k obj); reflexivity.
Qed.

Lemma NoDup_keys_omit (keys : list str) (obj : object) :
  NoDup (map fst (omit keys obj)).
Proof. rewrite omit_assign. apply NoDup_keys_Object_assign. constructor. Qed.

(** X8. Every own property of the package descriptor, for a manifest with
    distinct keys: [scripts] is absent, and so is [__proto__] (copying the
    manifest assigns to it, which adds no property); any other key the
    manifest holds keeps the manifest's value; a key the manifest lacks has
    the value of the script's fixed entries, if any. Preparing a descriptor
    a second time changes no lookup. *)
Theorem prepareJsonObject_lookup (obj : object) :
  NoDup (map fst obj) ->
  (forall k,
      get k (prepareJsonObject obj)
      = if str_eqb k (lit "scripts") || str_eqb k (lit "__proto__") then None
        else match get k obj with
             | Some v => Some v
             | None => get k packageFields
             end)
  /\ (forall k,
         get k (prepareJsonObject (prepareJsonObject obj))
         = get k (prepareJsonObject obj)).
Proof.
  assert (H : forall o, NoDup (map fst o) ->
              forall k,
                get k (prepareJsonObject o)
                = if str_eqb k (lit "scripts") || str_eqb k (lit "__proto__")
                  then None
                  else match get k o with
                       | Some v => Some v
                       | None => get k packageFields
                       end).
  { intros o Hnd k. unfold prepareJsonObject, merge.
    change (Object_assign [] packageFields) with packageFields.
    rewrite get_Object_assign by (apply NoDup_keys_omit || reflexivity).
    rewrite get_omit by exact Hnd. cbn [existsb]. rewrite orb_false_r.
    destruct (str_eqb k (lit "__proto__")) eqn:Ep.
    - rewrite orb_true_r. reflexivity.
    - rewrite orb_false_r. cbn [orb].
      destruct (str_eqb k (lit "scripts")) eqn:Es; [|reflexivity].
      apply str_eqb_eq in Es. subst k. reflexivity. }
  intro Hnd. split; [apply H, Hnd|].
  intro k.
  assert (Hnd' : NoDup (map fst (prepareJsonObject obj))).
  { unfold prepareJsonObject, merge. apply NoDup_keys_Object_assign.
    change (Object_assign [] packageFields) with packageFields.
    repeat constructor; simpl; intuition discriminate. }
  rewrite (H _ Hnd' k). rewrite (H _ Hnd k).
  destruct (str_eqb k (lit "scripts") || str_eqb k (lit "__proto__"));
    [reflexivity|].
  destruct (get k obj); [reflexivity|].
  destruct (get k packageFields); reflexivity.
Qed.

(** The demo manifest. *)
Lemma prepareJsonObject_lookup_witness :
  (forall k,
      get k (prepareJsonObject Demo.manifest)
      = if str_eqb k (lit "scripts") || str_eqb k (lit "__proto__") then None
        else match get k Demo.manifest with
             | Some v => Some v
             | None => get k packageFields
             end)
  /\ (forall k,
         get k (prepareJsonObject (prepareJsonObject Demo.manifest))
         = get k (prepareJsonObject Demo.manifest)).
Proof.
  apply (prepareJsonObject_lookup Demo.manifest).
  repeat constructor; simpl; intuition discriminate.
Defined.

(** ** Eligibility and externals *)

(** X3. The excluded patterns are not anchored: a path that holds one of
    them anywhere (so [latest.js] for [test.js], [prototype.js] for
    [type.js]) is never built. *)
Theorem takeFiles_refuses_substring (pattern a b : str) :
  In pattern DO_NOT_BUILD_PATHS ->
  takeFiles {| path := a ++ pattern ++ b |} = false.
Proof.
  intro Hin. unfold takeFiles, isNotIncludedInBuildPaths, anymatch. cbn [path].
  apply andb_false_iff. right. apply negb_false_iff.
  apply existsb_exists. exists pattern. split; [exact Hin|].
  apply includes_true.
Qed.

(** [src/latest.js]. *)
Lemma takeFiles_refuses_substring_witness :
  takeFiles {| path := lit "/proj/src/la" ++ lit "test.js" ++ [] |} = false.
Proof.
  apply (takeFiles_refuses_substring (lit "test.js") (lit "/proj/src/la") []).
  right. left. reflexivity.
Defined.

(** X4. One list of names serves the compiler and the manifests: the
    externals given to rollup are the module names of the eligible entries
    of the walk, in order, and they are the keys of each format's
    manifest. *)
Theorem externals_are_manifest_keys (cfg : config) (paths : list item) :
  createExternals cfg paths = map (moduleName cfg) (takeModules paths)
  /\ forall format,
      map key (pathMappings cfg format (takeModules paths))
      = createExternals cfg paths.
Proof.
  split; [apply createExternals_moduleNames|].
  intro format. rewrite createExternals_moduleNames.
  unfold pathMappings. rewrite map_map. reflexivity.
Qed.

(** ** Synchronous steps *)

Lemma sync_ret (P : event -> Prop) (A : Type) (a : A) : sync_step P (ret a).
Proof.
  intro st. split; [reflexivity|]. exists []. simpl.
  split; [symmetry; apply app_nil_r|]. split; [constructor|].
  intros e H. discriminate H.
Qed.

Lemma sync_emit (P : event -> Prop) (e : event) : P e -> sync_step P (emit e).
Proof.
  intros He st. split; [reflexivity|]. exists [e]. simpl.
  split; [reflexivity|]. split; [repeat constructor; exact He|].
  intros e' H. discriminate H.
Qed.

Lemma sync_fs_do (P : event -> Prop) (w : world) (c : fs_call) :
  (forall o, P (Fs c o)) -> sync_step P (fs_do w c).
Proof.
  intros Hc st. unfold fs_do.
  destruct (fs_throws w (trace st) c) as [e|]; simpl.
  - split; [reflexivity|]. exists [Fs c (Some e)].
    split; [reflexivity|]. split; [repeat constructor; apply Hc|].
    intros e' [= <-]. exists [], c. reflexivity.
  - split; [reflexivity|]. exists [Fs c None].
    split; [reflexivity|]. split; [repeat constructor; apply Hc|].
    intros e' H. discriminate H.
Qed.

Lemma sync_bind (P : event -> Prop) (A B : Type) (c : M A) (f : A -> M B) :
  sync_step P c -> (forall a, sync_step P (f a)) -> sync_step P (bind c f).
Proof.
  intros Hc Hf st. unfold bind.
  destruct (Hc st) as [Hp [more [Ht [HP Hthrow]]]].
  destruct (c st) as [[a|e] st1]; simpl in *.
  - destruct (Hf a st1) as [Hp' [more' [Ht' [HP' Hthrow']]]].
    split; [congruence|]. exists (more ++ more').
    split; [rewrite Ht', Ht; symmetry; apply app_assoc|].
    split; [apply Forall_app; split; assumption|].
    intros e He. destruct (Hthrow' e He) as [before [call ->]].
    exists (more ++ before), call. apply app_assoc.
  - split; [exact Hp|]. exists more. split; [exact Ht|]. split; [exact HP|].
    intros e' [= <-]. apply Hthrow. reflexivity.
Qed.

Lemma sync_forEach (P : event -> Prop) (A : Type) (fn : A -> M unit)
      (l : list A) :
  (forall x, In x l -> sync_step P (fn x)) -> sync_step P (forEach fn l).
Proof.
  induction l as [|x l IH]; intro H; simpl.
  - apply sync_ret.
  - apply sync_bind; [apply H; left; reflexivity|].
    intros _. apply IH. intros y Hy. apply H. right. exact Hy.
Qed.

Lemma sync_try_catch (P : event -> Prop) (A : Type) (body : M A)
      (handler : error -> M A) :
  sync_step P body -> (forall e, sync_step P (handler e)) ->
  sync_step P (try_catch body handler).
Proof.
  intros Hb Hh st. unfold try_catch.
  destruct (Hb st) as [Hp [more [Ht [HP _]]]].
  destruct (body st) as [[a|e] st1]; simpl in *.
  - split; [exact Hp|]. exists more. split; [exact Ht|]. split; [exact HP|].
    intros e He. discriminate He.
  - destruct (Hh e st1) as [Hp' [more' [Ht' [HP' Hthrow']]]].
    split; [congruence|]. exists (more ++ more').
    split; [rewrite Ht', Ht; symmetry; apply app_assoc|].
    split; [apply Forall_app; split; assumption|].
    intros e' He. destruct (Hthrow' e' He) as [before [call ->]].
    exists (more ++ before), call. apply app_assoc.
Qed.

(** [buildPathMapping] is such a step, and it never throws. *)
Lemma sync_buildPathMapping (P : event -> Prop) (cfg : config) (w : world)
      (format : str) (files : list str) :
  (forall o, P (Fs (mkdirp_sync (resolvePath cfg [DIR_PATH cfg; format])) o)) ->
  (forall data o,
      P (Fs (fs_writeFileSync
               (resolvePath cfg [DIR_PATH cfg; format; lit "path-mapping.js"]) data) o)) ->
  (forall e, P (ConsoleError e)) ->
  sync_step P (buildPathMapping cfg w format files)
  /\ forall st, fst (buildPathMapping cfg w format files st) = Ret tt.
Proof.
  intros Hm Hw He. split.
  - unfold buildPathMapping, writePathMapping.
    apply sync_try_catch.
    + apply sync_bind; [apply sync_fs_do, Hm|].
      intros _. apply sync_fs_do. apply Hw.
    + intro e. apply sync_emit, He.
  - intro st. unfold buildPathMapping, writePathMapping, try_catch, bind, fs_do, emit.
    destruct (fs_throws w (trace st) _); [reflexivity|].
    destruct (fs_throws w _ _); reflexivity.
Qed.

(** ** The footprint of the script *)

Lemma startsWith_refl_app (a b : str) : startsWith a (a ++ b) = true.
Proof. apply startsWith_app. Qed.

Lemma startsWith_extend (p a b : str) :
  startsWith p a = true -> startsWith p (a ++ b) = true.
Proof.
  intro H. apply startsWith_iff in H as [t ->].
  rewrite <- app_assoc. apply startsWith_app.
Qed.

(** Below an absolute segment without a trailing separator, plain names
    give that segment or a path that goes on after it with a separator. *)
Lemma path_resolve_below (before : list str) (d : str) (names : list str) :
  startsWith [slash] d = true ->
  endsWith [slash] d = false ->
  Forall (fun seg => startsWith [slash] seg = false) names ->
  path_resolve (before ++ d :: names) = d
  \/ startsWith (d ++ [slash]) (path_resolve (before ++ d :: names)) = true.
Proof.
  intros Hd Hend Hnames. unfold path_resolve.
  change (before ++ d :: names) with (before ++ [d] ++ names).
  rewrite app_assoc, fold_left_app.
  fold (path_resolve (before ++ [d])). rewrite path_resolve_absolute by exact Hd.
  set (step := fun acc seg =>
                 if startsWith [slash] seg then seg
                 else match seg with
                      | [] => acc
                      | _ => if endsWith [slash] acc then acc ++ seg
                             else acc ++ [slash] ++ seg
                      end).
  assert (H : forall acc,
             acc = d \/ startsWith (d ++ [slash]) acc = true ->
             fold_left step names acc = d
             \/ startsWith (d ++ [slash]) (fold_left step names acc) = true).
  { induction Hnames as [|seg names Hseg _ IH]; intros acc Hacc; [exact Hacc|].
    cbn [fold_left]. apply IH. unfold step. rewrite Hseg.
    destruct seg as [|c seg]; [exact Hacc|].
    destruct Hacc as [-> | Hacc].
    - rewrite Hend. right. rewrite app_assoc. apply startsWith_app.
    - right. destruct (endsWith [slash] acc);
        apply startsWith_extend; exact Hacc. }
  apply H. left. reflexivity.
Qed.

(** The output directory is an absolute path. *)
Lemma DIR_PATH_absolute (cfg : config) : startsWith [slash] (DIR_PATH cfg) = true.
Proof.
  assert (H : forall name,
             name <> [] -> startsWith [slash] name = false ->
             startsWith [slash] (resolvePath cfg [name]) = true).
  { intros name Hne Hrel. unfold resolvePath.
    change [project_root cfg; name] with ([project_root cfg] ++ [name]).
    rewrite path_resolve_snoc by assumption.
    unfold path_resolve. cbn [fold_left].
    destruct (startsWith [slash] (project_root cfg)) eqn:Habs.
    - apply startsWith_iff in Habs as [t ->].
      destruct (endsWith [slash] ([slash] ++ t)); reflexivity.
    - destruct (project_root cfg) as [|c root]; [reflexivity|].
      change (endsWith [slash] []) with false. cbv iota.
      destruct (endsWith [slash] ([] ++ [slash] ++ c :: root)); reflexivity. }
  unfold DIR_PATH, DEV_PATH, DIST_PATH.
  destruct (isDevelopment cfg); apply H; (discriminate || reflexivity).
Qed.

(** The output directory has no trailing separator. *)
Lemma DIR_PATH_no_trailing_slash (cfg : config) :
  endsWith [slash] (DIR_PATH cfg) = false.
Proof.
  destruct (directories_share_base cfg) as [base [_ [Hd Hv]]].
  unfold DIR_PATH.
  destruct (isDevelopment cfg); [rewrite Hv | rewrite Hd];
    unfold endsWith; rewrite rev_app_distr; reflexivity.
Qed.

(** Whatever is resolved below the output directory stays at or below
    it. *)
Lemma in_output_resolvePath (cfg : config) (names : list str) :
  Forall (fun seg => startsWith [slash] seg = false) names ->
  in_output cfg (resolvePath cfg (DIR_PATH cfg :: names)).
Proof.
  intro H. unfold in_output, resolvePath.
  apply (path_resolve_below [project_root cfg] (DIR_PATH cfg) names);
    [apply DIR_PATH_absolute | apply DIR_PATH_no_trailing_slash | exact H].
Qed.

(** The output directory's path is not even the beginning of the source
    root's. *)
Lemma source_outside_output (cfg : config) :
  startsWith (DIR_PATH cfg) (SOURCE_PATH cfg) = false.
Proof.
  destruct (directories_share_base cfg) as [base [Hs [Hd Hv]]].
  unfold DIR_PATH. rewrite Hs.
  destruct (isDevelopment cfg); [rewrite Hv | rewrite Hd];
    rewrite startsWith_app_head; reflexivity.
Qed.

(** The source root is neither the output directory nor inside it. *)
Lemma source_not_in_output (cfg : config) : ~ in_output cfg (SOURCE_PATH cfg).
Proof.
  pose proof (source_outside_output cfg) as H.
  intros [E | E].
  - rewrite E in H. rewrite <- (app_nil_r (DIR_PATH cfg)) in H at 2.
    rewrite startsWith_app in H. discriminate H.
  - apply startsWith_iff in E as [t E]. rewrite E in H.
    rewrite <- app_assoc in H. rewrite startsWith_app in H. discriminate H.
Qed.

Lemma staticFiles_relative (file : str) :
  In file staticFiles -> startsWith [slash] file = false.
Proof.
  intro H. repeat (destruct H as [<-|H]; [reflexivity|]). destruct H.
Qed.

Lemma sync_manifest (P : event -> Prop) (cfg : config) (w : world)
      (format : str) (modules : list str) :
  (forall c o, in_footprint cfg c -> P (Fs c o)) ->
  (forall e, P (ConsoleError e)) ->
  startsWith [slash] format = false ->
  sync_step P (buildPathMapping cfg w format modules).
Proof.
  intros HP He Hrel. apply sync_buildPathMapping; [| |exact He].
  - intro o. apply HP. apply (in_output_resolvePath cfg [format]).
    repeat constructor. exact Hrel.
  - intros data o. apply HP.
    apply (in_output_resolvePath cfg [format; lit "path-mapping.js"]).
    repeat constructor. exact Hrel.
Qed.

Lemma sync_production_setup (P : event -> Prop) (cfg : config) (w : world)
      (modules : list str) :
  (forall c o, in_footprint cfg c -> P (Fs c o)) ->
  (forall e, P (ConsoleError e)) ->
  isDevelopment cfg = false ->
  sync_step P (production_setup cfg w modules).
Proof.
  intros HP He Hdev.
  assert (E : DIST_PATH cfg = DIR_PATH cfg) by (unfold DIR_PATH; rewrite Hdev; reflexivity).
  unfold production_setup, cleanFolder, createFolder, createPackageJson, copyFiles.
  rewrite E.
  apply sync_bind; [apply sync_fs_do; intro o; apply HP; reflexivity|]. intros _.
  apply sync_bind;
    [apply sync_fs_do; intro o; apply HP;
     apply (in_output_resolvePath cfg []); constructor|]. intros _.
  apply sync_bind;
    [apply sync_fs_do; intro o; apply HP;
     apply (in_output_resolvePath cfg [lit "package.json"]); repeat constructor|].
  intros _.
  apply sync_bind.
  { apply sync_forEach. intros file Hfile. apply sync_fs_do. intro o. apply HP.
    apply (in_output_resolvePath cfg [file]). repeat constructor.
    apply staticFiles_relative, Hfile. }
  intros _.
  apply sync_bind; [apply sync_manifest; (assumption || reflexivity)|]. intros _.
  apply sync_manifest; (assumption || reflexivity).
Qed.

Lemma sync_development_setup (P : event -> Prop) (cfg : config) (w : world)
      (modules : list str) :
  (forall c o, in_footprint cfg c -> P (Fs c o)) ->
  (forall e, P (ConsoleError e)) ->
  isDevelopment cfg = true ->
  sync_step P (development_setup cfg w modules).
Proof.
  intros HP He Hdev.
  assert (E : DEV_PATH cfg = DIR_PATH cfg) by (unfold DIR_PATH; rewrite Hdev; reflexivity).
  unfold development_setup, cleanFolder, createFolder.
  rewrite E.
  apply sync_bind; [apply sync_fs_do; intro o; apply HP; reflexivity|]. intros _.
  apply sync_bind;
    [apply sync_fs_do; intro o; apply HP;
     apply (in_output_resolvePath cfg []); constructor|]. intros _.
  apply sync_bind; [apply sync_manifest; (assumption || reflexivity)|]. intros _.
  apply sync_manifest; (assumption || reflexivity).
Qed.

(** After a walk that returns, the script is the branch's setup and, when
    that returns, the branch's asynchronous end: the two batches, or the
    watcher. *)
Lemma make_production (cfg : config) (w : world) (st : state) :
  isDevelopment cfg = false ->
  klaw_throws w (SOURCE_PATH cfg) = None ->
  make cfg w st
  = match production_setup cfg w (loaded_modules cfg w)
            (log (Klaw (SOURCE_PATH cfg)) st) with
    | (Ret _, st') =>
        (Ret tt,
         start (mapAsync (buildModule cfg (loaded_externals cfg w) CJS_MODULES)
                  (loaded_modules cfg w))
           (start (mapAsync (buildModule cfg (loaded_externals cfg w) ESM_MODULES)
                     (loaded_modules cfg w)) st'))
    | (Throw e, st') => (Throw e, st')
    end.
Proof.
  intros Hdev Hk. rewrite make_walked by exact Hk. rewrite Hdev.
  unfold production, production_setup, bind.
  repeat match goal with
         | |- context [match ?c ?s with (_, _) => _ end] =>
             lazymatch c with
             | buildModules _ _ _ _ => fail
             | _ => destruct (c s) as [[[]|?] ?]
             end
         end; reflexivity.
Qed.

Lemma make_development (cfg : config) (w : world) (st : state) :
  isDevelopment cfg = true ->
  klaw_throws w (SOURCE_PATH cfg) = None ->
  make cfg w st
  = match development_setup cfg w (loaded_modules cfg w)
            (log (Klaw (SOURCE_PATH cfg)) st) with
    | (Ret _, st') =>
        (Ret tt, log (Watch (resolvePath cfg [lit "src"]) DO_NOT_BUILD_PATHS) st')
    | (Throw e, st') => (Throw e, st')
    end.
Proof.
  intros Hdev Hk. rewrite make_walked by exact Hk. rewrite Hdev.
  unfold development, development_setup, bind.
  repeat match goal with
         | |- context [match ?c ?s with (_, _) => _ end] =>
             lazymatch c with
             | emit _ => fail
             | _ => destruct (c s) as [[[]|?] ?]
             end
         end; reflexivity.
Qed.

(** ** How the script ends *)

(** X9. The ways the script's synchronous part ends. When it throws, the
    error is that of the walk, which is then all that happened, or, after a
    walk that returned, that of its last file-system call; either way no
    compilation has been started and no watcher: the trace holds the walk
    and file-system calls only. When it returns in production, the pending
    calls are the first call of the ESM batch and the first call of the CJS
    batch. When it returns in development, nothing is pending and the
    watcher's start is the last event. *)
Theorem make_outcomes (cfg : config) (w : world) :
  (forall e st,
      make cfg w initial = (Throw e, st) ->
      pending st = []
      /\ Forall quiet_event (trace st)
      /\ ((klaw_throws w (SOURCE_PATH cfg) = Some e
           /\ trace st = [Klaw (SOURCE_PATH cfg)])
          \/ (klaw_throws w (SOURCE_PATH cfg) = None
              /\ exists before call,
                  trace st
                  = Klaw (SOURCE_PATH cfg) :: before ++ [Fs call (Some e)])))
  /\ (forall st,
         make cfg w initial = (Ret tt, st) ->
         isDevelopment cfg = false ->
         pending st
         = batch_pending cfg (loaded_externals cfg w) ESM_MODULES (loaded_modules cfg w)
           ++ batch_pending cfg (loaded_externals cfg w) CJS_MODULES
                (loaded_modules cfg w))
  /\ (forall st,
         make cfg w initial = (Ret tt, st) ->
         isDevelopment cfg = true ->
         pending st = []
         /\ exists before,
             trace st
             = before ++ [Watch (resolvePath cfg [lit "src"]) DO_NOT_BUILD_PATHS]
             /\ Forall quiet_event before).
Proof.
  assert (Hq : forall c o, in_footprint cfg c -> quiet_event (Fs c o))
    by (intros; exact I).
  assert (He : forall e, quiet_event (ConsoleError e)) by (intros; exact I).
  destruct (klaw_throws w (SOURCE_PATH cfg)) as [e0|] eqn:Hk.
  { rewrite (make_walk_throws cfg w initial e0 Hk).
    split; [|split; [intros st H; discriminate H | intros st H; discriminate H]].
    intros e st [= <- <-]. split; [reflexivity|].
    split; [repeat constructor|]. left. split; reflexivity. }
  destruct (isDevelopment cfg) eqn:Hdev.
  - rewrite (make_development cfg w initial Hdev Hk).
    destruct (sync_development_setup quiet_event cfg w (loaded_modules cfg w)
                Hq He Hdev (log (Klaw (SOURCE_PATH cfg)) initial))
      as [Hp [more [Ht [HP Hthrow]]]].
    destruct (development_setup cfg w (loaded_modules cfg w)
                (log (Klaw (SOURCE_PATH cfg)) initial)) as [[[]|e0] st0];
      simpl in Hp, Ht, Hthrow.
    + split; [intros e st H; discriminate H|]. split; [intros st _ H; discriminate H|].
      intros st [= <-] _. split; [exact Hp|].
      exists (Klaw (SOURCE_PATH cfg) :: more). simpl. rewrite Ht.
      split; [reflexivity|]. constructor; [exact I | exact HP].
    + split; [|split; [intros st H; discriminate H | intros st H; discriminate H]].
      intros e st [= <- <-]. split; [exact Hp|]. rewrite Ht.
      split; [constructor; [exact I | exact HP]|].
      right. split; [reflexivity|].
      destruct (Hthrow e0 eq_refl) as [before [call ->]].
      exists before, call. reflexivity.
  - rewrite (make_production cfg w initial Hdev Hk).
    destruct (sync_production_setup quiet_event cfg w (loaded_modules cfg w)
                Hq He Hdev (log (Klaw (SOURCE_PATH cfg)) initial))
      as [Hp [more [Ht [HP Hthrow]]]].
    destruct (production_setup cfg w (loaded_modules cfg w)
                (log (Klaw (SOURCE_PATH cfg)) initial)) as [[[]|e0] st0];
      simpl in Hp, Ht, Hthrow.
    + split; [intros e st H; discriminate H|]. split; [|intros st _ H; discriminate H].
      intros st [= <-] _. rewrite !start_mapAsync. cbn [pending]. rewrite Hp.
      reflexivity.
    + split; [|split; [intros st H; discriminate H | intros st H; discriminate H]].
      intros e st [= <- <-]. split; [exact Hp|]. rewrite Ht.
      split; [constructor; [exact I | exact HP]|].
      right. split; [reflexivity|].
      destruct (Hthrow e0 eq_refl) as [before [call ->]].
      exists before, call. reflexivity.
Qed.

Lemma bind_fs_do_at (w : world) (A : Type) (c : fs_call) (k : unit -> M A)
      (st : state) :
  fs_throws w (trace st) c = None ->
  bind (fs_do w c) k st = k tt (log (Fs c None) st).
Proof. intro H. unfold bind, fs_do. rewrite H. reflexivity. Qed.

Lemma forEach_fs_do_at (w : world) (B : Type) (f : B -> fs_call) (l : list B)
      (st : state) :
  (forall tr x, fs_throws w tr (f x) = None) ->
  fst (forEach (fun x => fs_do w (f x)) l st) = Ret tt.
Proof.
  intro H. revert st. induction l as [|x l IH]; intro st; simpl; [reflexivity|].
  rewrite bind_fs_do_at by apply H. apply IH.
Qed.

Lemma buildPathMapping_returns (cfg : config) (w : world) (format : str)
      (files : list str) (st : state) :
  fst (buildPathMapping cfg w format files st) = Ret tt.
Proof.
  apply (sync_buildPathMapping (fun _ => True) cfg w format files);
    intros; exact I.
Qed.

(** X10. Only the walk and the calls outside [buildPathMapping] can stop
    the script: in a world where the walk of the source tree, removing and
    creating the output directory, writing [package.json] and copying the
    static files do not throw, the script's synchronous part returns
    normally, whatever happens to the manifests' directories and files. *)
Theorem manifest_failures_not_fatal (cfg : config) (w : world) :
  klaw_throws w (SOURCE_PATH cfg) = None ->
  (forall tr c, outside_manifest cfg c -> fs_throws w tr c = None) ->
  fst (make cfg w initial) = Ret tt.
Proof.
  intros Hk H.
  assert (Hbind : forall (A : Type) (c : M unit) (k : unit -> M A) st,
             fst (c st) = Ret tt -> bind c k st = k tt (snd (c st))).
  { intros A c k st Hc. unfold bind. destruct (c st) as [[[]|e] st']; simpl in *;
      [reflexivity | discriminate Hc]. }
  destruct (isDevelopment cfg) eqn:Hdev.
  - assert (E : DEV_PATH cfg = DIR_PATH cfg)
      by (unfold DIR_PATH; rewrite Hdev; reflexivity).
    rewrite (make_development cfg w initial Hdev Hk).
    assert (Hs : forall st, fst (development_setup cfg w (loaded_modules cfg w) st) = Ret tt).
    { intro st. unfold development_setup, cleanFolder, createFolder.
      rewrite bind_fs_do_at by (apply H; exact I).
      rewrite bind_fs_do_at by (apply H; simpl; rewrite E; reflexivity).
      rewrite Hbind by apply buildPathMapping_returns.
      apply buildPathMapping_returns. }
    specialize (Hs (log (Klaw (SOURCE_PATH cfg)) initial)).
    destruct (development_setup cfg w (loaded_modules cfg w) _) as [[[]|e] st'];
      [reflexivity | discriminate Hs].
  - assert (E : DIST_PATH cfg = DIR_PATH cfg)
      by (unfold DIR_PATH; rewrite Hdev; reflexivity).
    rewrite (make_production cfg w initial Hdev Hk).
    assert (Hs : forall st, fst (production_setup cfg w (loaded_modules cfg w) st) = Ret tt).
    { intro st. unfold production_setup, cleanFolder, createFolder, createPackageJson,
        copyFiles.
      rewrite bind_fs_do_at by (apply H; exact I).
      rewrite bind_fs_do_at by (apply H; simpl; rewrite E; reflexivity).
      rewrite bind_fs_do_at by (apply H; exact I).
      rewrite Hbind by (apply forEach_fs_do_at; intros tr x; apply H; exact I).
      rewrite Hbind by apply buildPathMapping_returns.
      apply buildPathMapping_returns. }
    specialize (Hs (log (Klaw (SOURCE_PATH cfg)) initial)).
    destruct (production_setup cfg w (loaded_modules cfg w) _) as [[[]|e] st'];
      [reflexivity | discriminate Hs].
Qed.

(** The demo project where no manifest directory can be created. *)
Lemma manifest_failures_not_fatal_witness :
  fst (make Demo.prod Demo.readonly initial) = Ret tt.
Proof.
  apply (manifest_failures_not_fatal Demo.prod Demo.readonly).
  - reflexivity.
  - intros tr c Hc. destruct c as [d|d|f data|src dest]; try reflexivity.
    simpl in Hc. rewrite Hc. reflexivity.
Defined.

(** The script of the demo project where the output directory cannot be
    removed. *)
Lemma make_outcomes_witness :
  pending (snd (make Demo.prod Demo.locked initial)) = []
  /\ Forall quiet_event (trace (snd (make Demo.prod Demo.locked initial)))
  /\ ((klaw_throws Demo.locked (SOURCE_PATH Demo.prod) = Some Demo.EACCES
       /\ trace (snd (make Demo.prod Demo.locked initial))
          = [Klaw (SOURCE_PATH Demo.prod)])
      \/ (klaw_throws Demo.locked (SOURCE_PATH Demo.prod) = None
          /\ exists before call,
              trace (snd (make Demo.prod Demo.locked initial))
              = Klaw (SOURCE_PATH Demo.prod)
                :: before ++ [Fs call (Some Demo.EACCES)])).
Proof.
  apply (proj1 (make_outcomes Demo.prod Demo.locked) Demo.EACCES
               (snd (make Demo.prod Demo.locked initial))).
  reflexivity.
Defined.

Lemma turns_keep_fs_calls (cfg : config) (w : world) (st st' : state) :
  turns cfg w st st' -> fs_calls (trace st') = fs_calls (trace st).
Proof.
  intro H. induction H as [st | st1 st2 st3 _ IH Hturn]; [reflexivity|].
  rewrite <- IH. destruct Hturn;
    [apply fs_calls_settle | apply fs_calls_watch_event].
Qed.

Lemma fs_calls_in_footprint (cfg : config) (tr : list event) :
  Forall (setup_event cfg) tr -> Forall (in_footprint cfg) (fs_calls tr).
Proof.
  induction 1 as [|e tr He _ IH]; [constructor|].
  destruct e; simpl; try exact IH. constructor; [exact He | exact IH].
Qed.

(** X11. The script's file-system footprint, whatever the world does and
    however long it runs: the only path it has removed is the output
    directory, and every directory it creates, every file it writes and
    every copy it makes is the output directory or a path that goes on
    after it with a separator; the source root is neither that directory
    nor inside it (the output directory's path is not even the beginning of
    the source root's). *)
Theorem make_footprint (cfg : config) (w : world) :
  ~ in_output cfg (SOURCE_PATH cfg)
  /\ startsWith (DIR_PATH cfg) (SOURCE_PATH cfg) = false
  /\ forall st',
      turns cfg w (snd (make cfg w initial)) st' ->
      Forall (in_footprint cfg) (fs_calls (trace st')).
Proof.
  split; [apply source_not_in_output|].
  split; [apply source_outside_output|].
  intros st' Hturns. rewrite (turns_keep_fs_calls _ _ _ _ Hturns).
  assert (Hq : forall c o, in_footprint cfg c -> setup_event cfg (Fs c o))
    by (intros c o H; exact H).
  assert (He : forall e, setup_event cfg (ConsoleError e)) by (intros; exact I).
  assert (Hkl : forall more,
             Forall (setup_event cfg) more ->
             Forall (in_footprint cfg)
               (fs_calls (trace (log (Klaw (SOURCE_PATH cfg)) initial) ++ more))).
  { intros more H. apply fs_calls_in_footprint.
    constructor; [reflexivity | exact H]. }
  destruct (klaw_throws w (SOURCE_PATH cfg)) as [e0|] eqn:Hk.
  { rewrite (make_walk_throws cfg w initial e0 Hk). constructor. }
  destruct (isDevelopment cfg) eqn:Hdev.
  - rewrite (make_development cfg w initial Hdev Hk).
    destruct (sync_development_setup (setup_event cfg) cfg w (loaded_modules cfg w)
                Hq He Hdev (log (Klaw (SOURCE_PATH cfg)) initial))
      as [_ [more [Ht [HP _]]]].
    destruct (development_setup cfg w (loaded_modules cfg w)
                (log (Klaw (SOURCE_PATH cfg)) initial)) as [[[]|e0] st0];
      simpl in Ht |- *.
    + rewrite Ht, fs_calls_app. simpl. rewrite app_nil_r. apply Hkl, HP.
    + rewrite Ht. apply Hkl, HP.
  - rewrite (make_production cfg w initial Hdev Hk).
    destruct (sync_production_setup (setup_event cfg) cfg w (loaded_modules cfg w)
                Hq He Hdev (log (Klaw (SOURCE_PATH cfg)) initial))
      as [_ [more [Ht [HP _]]]].
    destruct (production_setup cfg w (loaded_modules cfg w)
                (log (Klaw (SOURCE_PATH cfg)) initial)) as [[[]|e0] st0];
      simpl in Ht |- *.
    + rewrite !fs_calls_start, Ht. apply Hkl, HP.
    + rewrite Ht. apply Hkl, HP.
Qed.

(** ** Builds and writes *)

Lemma writes_follow_builds_app (cfg : config) (prev : option event)
      (a b : list event) :
  writes_follow_builds cfg prev (a ++ b)
  = writes_follow_builds cfg prev a
    && writes_follow_builds cfg (last_event prev a) b.
Proof.
  revert prev. induction a as [|e a IH]; intro prev; [reflexivity|].
  cbn [app writes_follow_builds last_event fold_left]. rewrite IH.
  apply andb_assoc.
Qed.

Lemma writes_follow_builds_quiet (cfg : config) (prev : option event)
      (tr : list event) :
  Forall quiet_event tr -> writes_follow_builds cfg prev tr = true.
Proof.
  intro H. revert prev. induction H as [|e tr He _ IH]; intro prev; [reflexivity|].
  cbn [writes_follow_builds]. rewrite IH.
  destruct e; try reflexivity. destruct He.
Qed.

Lemma builds_then_task (cfg : config) (t k : task) :
  builds cfg t -> builds cfg k -> builds cfg (then_task t k).
Proof.
  revert t.
  fix IH 1. intros t Ht Hk.
  destruct t as [|op t']; [exact Hk|].
  destruct op as [format file external|format out]; [|exfalso; exact Ht].
  destruct t' as [|op' t'']; [exfalso; exact Ht|].
  destruct op' as [format' file' external'|format' out]; [exfalso; exact Ht|].
  destruct Ht as [Hf [Ho Ht]]. cbn [then_task builds].
  split; [exact Hf|]. split; [exact Ho|]. apply IH; assumption.
Qed.

Lemma builds_buildModule (cfg : config) (externals : list str) (format file : str) :
  builds cfg (buildModule cfg externals format file).
Proof. unfold buildModule. simpl. repeat split. Qed.

Lemma builds_mapAsync (cfg : config) (externals : list str) (format : str)
      (files : list str) :
  builds cfg (mapAsync (buildModule cfg externals format) files).
Proof.
  unfold mapAsync. induction files as [|file files IH]; [exact I|].
  cbn [fold_right]. apply builds_then_task; [apply builds_buildModule | exact IH].
Qed.

Lemma orderly_start (cfg : config) (t : task) (st : state) :
  orderly cfg st -> builds cfg t -> orderly cfg (start t st).
Proof.
  intros [Htr Hp] Ht. destruct t as [|op k]; [split; assumption|].
  destruct op as [format file external|format out]; [|exfalso; exact Ht].
  unfold start. split; cbn [trace pending].
  - rewrite writes_follow_builds_app, Htr. reflexivity.
  - apply Forall_app. split; [exact Hp|]. constructor; [|constructor].
    left. exact Ht.
Qed.

Lemma orderly_settle (cfg : config) (i : nat) (fulfilled : bool) (st : state) :
  orderly cfg st -> orderly cfg (settle i fulfilled st).
Proof.
  intros [Htr Hp]. unfold settle.
  destruct (nth_error (pending st) i) as [[op k]|] eqn:E; [|split; assumption].
  assert (Hrest : Forall (pending_ok cfg)
                    (firstn i (pending st) ++ skipn (S i) (pending st))).
  { rewrite <- (firstn_skipn_middle _ _ E) in Hp.
    apply Forall_app in Hp as [H1 H2]. apply Forall_app. split; [exact H1|].
    inversion H2; assumption. }
  assert (Hok : pending_ok cfg (op, k)).
  { apply (proj1 (Forall_forall _ _) Hp). apply (nth_error_In _ _ E). }
  assert (Hst : orderly cfg
                  {| trace := trace st ++ [Settled op fulfilled];
                     pending := firstn i (pending st) ++ skipn (S i) (pending st) |}).
  { split; cbn [trace pending]; [|exact Hrest].
    rewrite writes_follow_builds_app, Htr. reflexivity. }
  destruct fulfilled; [|exact Hst].
  destruct Hok as [Hb | [_ Hb]]; cbn [fst snd] in Hb.
  - destruct op as [format file external|format out]; [|exfalso; exact Hb].
    destruct k as [|op' k']; [exfalso; exact Hb|].
    destruct op' as [format' file' external'|format' out]; [exfalso; exact Hb|].
    destruct Hb as [-> [-> Hb]].
    unfold start. split; cbn [trace pending].
    + rewrite <- app_assoc. rewrite writes_follow_builds_app, Htr.
      cbn [app writes_follow_builds]. rewrite !str_eqb_refl. reflexivity.
    + apply Forall_app. split; [exact Hrest|]. constructor; [|constructor].
      right. split; [eexists; eexists; reflexivity | exact Hb].
  - apply orderly_start; assumption.
Qed.

Lemma orderly_watch_event (cfg : config) (w : world) (event file : str)
      (st : state) :
  orderly cfg st -> orderly cfg (snd (watch_event cfg w event file st)).
Proof.
  intros [Htr Hp]. unfold watch_event.
  destruct (anymatch DO_NOT_BUILD_PATHS file); [split; assumption|].
  assert (Hd : orderly cfg (dispatched cfg (loaded_externals cfg w) file st)).
  { unfold dispatched. split; cbn [trace pending].
    - rewrite writes_follow_builds_app, Htr. reflexivity.
    - apply Forall_app. split; [exact Hp|].
      constructor; [|constructor; [|constructor]]; left; simpl; repeat split. }
  destruct (str_eqb event (lit "add")) eqn:Ea;
    [apply str_eqb_eq in Ea; rewrite on_all_build by (left; exact Ea); exact Hd|].
  destruct (str_eqb event (lit "change")) eqn:Ec;
    [apply str_eqb_eq in Ec; rewrite on_all_build by (right; exact Ec); exact Hd|].
  rewrite on_all_other by (apply str_eqb_neq; assumption). split; assumption.
Qed.

Lemma orderly_make (cfg : config) (w : world) :
  orderly cfg (snd (make cfg w initial)).
Proof.
  assert (Hq : forall c o, in_footprint cfg c -> quiet_event (Fs c o))
    by (intros; exact I).
  assert (He : forall e, quiet_event (ConsoleError e)) by (intros; exact I).
  assert (Hsetup : forall st0 more,
             pending st0 = [] ->
             trace st0 = trace (log (Klaw (SOURCE_PATH cfg)) initial) ++ more ->
             Forall quiet_event more -> orderly cfg st0).
  { intros st0 more Hp Ht HP. split.
    - rewrite Ht. apply writes_follow_builds_quiet.
      constructor; [exact I | exact HP].
    - rewrite Hp. constructor. }
  destruct (klaw_throws w (SOURCE_PATH cfg)) as [e0|] eqn:Hk.
  { rewrite (make_walk_throws cfg w initial e0 Hk).
    apply (Hsetup _ []); [reflexivity | symmetry; apply app_nil_r | constructor]. }
  destruct (isDevelopment cfg) eqn:Hdev.
  - rewrite (make_development cfg w initial Hdev Hk).
    destruct (sync_development_setup quiet_event cfg w (loaded_modules cfg w)
                Hq He Hdev (log (Klaw (SOURCE_PATH cfg)) initial))
      as [Hp [more [Ht [HP _]]]].
    destruct (development_setup cfg w (loaded_modules cfg w)
                (log (Klaw (SOURCE_PATH cfg)) initial)) as [[[]|e0] st0];
      simpl in Hp, Ht |- *.
    + destruct (Hsetup st0 more Hp Ht HP) as [H1 H2].
      split; cbn [trace pending log]; [|exact H2].
      rewrite writes_follow_builds_app, H1. reflexivity.
    + apply (Hsetup st0 more Hp Ht HP).
  - rewrite (make_production cfg w initial Hdev Hk).
    destruct (sync_production_setup quiet_event cfg w (loaded_modules cfg w)
                Hq He Hdev (log (Klaw (SOURCE_PATH cfg)) initial))
      as [Hp [more [Ht [HP _]]]].
    destruct (production_setup cfg w (loaded_modules cfg w)
                (log (Klaw (SOURCE_PATH cfg)) initial)) as [[[]|e0] st0];
      simpl in Hp, Ht |- *.
    + apply orderly_start; [apply orderly_start|]; try apply builds_mapAsync.
      apply (Hsetup st0 more Hp Ht HP).
    + apply (Hsetup st0 more Hp Ht HP).
Qed.

Lemma orderly_turns (cfg : config) (w : world) (st st' : state) :
  turns cfg w st st' -> orderly cfg st -> orderly cfg st'.
Proof.
  intros H Hst. induction H as [st | st1 st2 st3 _ IH Hturn]; [exact Hst|].
  destruct Hturn; [apply orderly_settle | apply orderly_watch_event];
    apply IH, Hst.
Qed.

(** X12. A bundle is written only after it was built: in every run, in
    either mode and whatever fails, each [bundle.write] call comes right
    after the fulfilment of a [rollup.rollup] call of the same format, and
    writes to the output path of that call's input file. In particular a
    rejected build is never followed by a write. *)
Theorem writes_only_after_builds (cfg : config) (w : world) (st : state) :
  turns cfg w (snd (make cfg w initial)) st ->
  writes_follow_builds cfg None (trace st) = true.
Proof.
  intro H. apply (orderly_turns cfg w _ _ H), orderly_make.
Qed.

(** The watched demo project: [Foo/bar.js] changes and its CJS build is
    fulfilled. *)
Lemma writes_only_after_builds_witness :
  writes_follow_builds Demo.dev None
    (trace
       (settle 0 true
          (snd (watch_event Demo.dev Demo.calm (lit "change")
                  (lit "/proj/src/Foo/bar.js")
                  (snd (make Demo.dev Demo.calm initial))))))
  = true.
Proof.
  apply (writes_only_after_builds Demo.dev Demo.calm).
  eapply turns_step; [eapply turns_step; [apply turns_refl|]|].
  - apply turn_watch. reflexivity.
  - apply turn_settle. vm_compute. lia.
Defined.

(** ** The production run ends *)

Lemma task_size_then_task (t k : task) :
  task_size (then_task t k) = task_size t + task_size k.
Proof. induction t as [|op t IH]; simpl; [reflexivity | rewrite IH; reflexivity]. Qed.

Lemma task_size_mapAsync (cfg : config) (externals : list str) (format : str)
      (files : list str) :
  task_size (mapAsync (buildModule cfg externals format) files) = 2 * length files.
Proof.
  unfold mapAsync. induction files as [|file files IH]; [reflexivity|].
  cbn [fold_right]. rewrite task_size_then_task, IH. simpl. lia.
Qed.

Lemma work_batch_pending (cfg : config) (externals : list str) (format : str)
      (files : list str) :
  list_sum (map (fun p => S (task_size (snd p)))
              (batch_pending cfg externals format files))
  = 2 * length files.
Proof.
  destruct files as [|file rest]; [reflexivity|].
  simpl. rewrite task_size_mapAsync. lia.
Qed.

(** Settling a pending call leaves less to do. *)
Lemma work_settle (i : nat) (fulfilled : bool) (st : state) :
  i < length (pending st) -> work (settle i fulfilled st) < work st.
Proof.
  intro Hi. unfold settle.
  destruct (nth_error (pending st) i) as [[op k]|] eqn:E;
    [|apply nth_error_None in E; lia].
  assert (Hst : work st
                = list_sum (map (fun p => S (task_size (snd p)))
                              (firstn i (pending st) ++ skipn (S i) (pending st)))
                  + S (task_size k)).
  { unfold work. rewrite <- (firstn_skipn_middle _ _ E) at 1.
    rewrite !map_app, !list_sum_app. simpl. lia. }
  rewrite Hst.
  destruct fulfilled; [|unfold work; simpl; lia].
  destruct k as [|op' k']; unfold work, start; cbn [pending].
  - simpl. lia.
  - rewrite map_app, list_sum_app. simpl. lia.
Qed.

Lemma turns_n_work (cfg : config) (w : world) (n : nat) (st st' : state) :
  isDevelopment cfg = false ->
  turns_n cfg w n st st' -> n + work st' <= work st.
Proof.
  intros Hdev H. induction H as [st | n st1 st2 st3 _ IH Hturn]; [lia|].
  destruct Hturn as [st2 i fulfilled Hi | st2 event file Hd]; [|congruence].
  pose proof (work_settle i fulfilled st2 Hi). lia.
Qed.

Lemma work_make_production (cfg : config) (w : world) :
  isDevelopment cfg = false ->
  work (snd (make cfg w initial)) <= 4 * length (loaded_modules cfg w).
Proof.
  intro Hdev.
  assert (Hq : forall c o, in_footprint cfg c -> quiet_event (Fs c o))
    by (intros; exact I).
  assert (He : forall e, quiet_event (ConsoleError e)) by (intros; exact I).
  destruct (klaw_throws w (SOURCE_PATH cfg)) as [e|] eqn:Hk.
  { rewrite (make_walk_throws cfg w initial e Hk). unfold work. simpl. lia. }
  rewrite (make_production cfg w initial Hdev Hk).
  destruct (sync_production_setup quiet_event cfg w (loaded_modules cfg w)
              Hq He Hdev (log (Klaw (SOURCE_PATH cfg)) initial))
    as [Hp _].
  destruct (production_setup cfg w (loaded_modules cfg w)
              (log (Klaw (SOURCE_PATH cfg)) initial)) as [[[]|e0] st0];
    simpl in Hp |- *.
  - rewrite !start_mapAsync. unfold work. cbn [pending]. rewrite Hp.
    cbn [app]. rewrite map_app, list_sum_app, !work_batch_pending. lia.
  - unfold work. rewrite Hp. simpl. lia.
Qed.

(** X13. The production run ends: after the script's last line at most
    four turns of the event loop per eligible file can follow (a
    [rollup.rollup] and a [bundle.write] to settle, for each format), fewer
    when a call is rejected; and once nothing is left to do, no turn is
    possible. *)
Theorem production_terminates (cfg : config) (w : world) (n : nat) (st : state) :
  isDevelopment cfg = false ->
  turns_n cfg w n (snd (make cfg w initial)) st ->
  n + work st <= 4 * length (loaded_modules cfg w)
  /\ (work st = 0 -> forall st', ~ turn cfg w st st').
Proof.
  intros Hdev H. split.
  - pose proof (turns_n_work cfg w n _ _ Hdev H).
    pose proof (work_make_production cfg w Hdev). lia.
  - intros Hw st' Hturn.
    destruct Hturn as [st i fulfilled Hi | st event file Hd]; [|congruence].
    unfold work in Hw. destruct (pending st) as [|p l]; simpl in *; [lia | discriminate Hw].
Qed.

(** The demo project after one fulfilled call. *)
Lemma production_terminates_witness :
  1 + work (settle 0 true (snd (make Demo.prod Demo.calm initial)))
  <= 4 * length (loaded_modules Demo.prod Demo.calm)
  /\ (work (settle 0 true (snd (make Demo.prod Demo.calm initial))) = 0 ->
      forall st',
        ~ turn Demo.prod Demo.calm
            (settle 0 true (snd (make Demo.prod Demo.calm initial))) st').
Proof.
  apply (production_terminates Demo.prod Demo.calm 1).
  - reflexivity.
  - eapply turns_n_step; [apply turns_n_refl|].
    apply turn_settle. vm_compute. lia.
Defined.

(** ** What a production run compiles *)

Lemma calls_app (format : str) (a b : list event) :
  calls format (a ++ b) = calls format a ++ calls format b.
Proof. unfold calls. apply flat_map_app. Qed.

Lemma calls_quiet (format : str) (tr : list event) :
  Forall quiet_event tr -> calls format tr = [].
Proof.
  induction 1 as [|e tr He _ IH]; [reflexivity|].
  destruct e; simpl; try exact IH. destruct He.
Qed.

Lemma todo_app (format : str) (a b : list (async_op * task)) :
  todo format (a ++ b) = todo format a ++ todo format b.
Proof. unfold todo. rewrite filter_app. apply flat_map_app. Qed.

Lemma todo_one (format : str) (op : async_op) (k : task) :
  todo format [(op, k)] = if is_format format op then task_ops k else [].
Proof.
  unfold todo. simpl. destruct (is_format format op); simpl;
    [apply app_nil_r | reflexivity].
Qed.

Lemma task_ops_then_task (t k : task) :
  task_ops (then_task t k) = task_ops t ++ task_ops k.
Proof. induction t as [|op t IH]; simpl; [reflexivity | rewrite IH; reflexivity]. Qed.

Lemma task_ops_mapAsync (cfg : config) (externals : list str) (format : str)
      (files : list str) :
  task_ops (mapAsync (buildModule cfg externals format) files)
  = batch_ops cfg externals format files.
Proof.
  unfold mapAsync, batch_ops. induction files as [|file files IH]; [reflexivity|].
  cbn [fold_right flat_map]. rewrite task_ops_then_task, IH. reflexivity.
Qed.

Lemma batch_ops_format (cfg : config) (externals : list str) (format : str)
      (files : list str) :
  Forall (fun op => op_format op = format) (batch_ops cfg externals format files).
Proof.
  unfold batch_ops. induction files as [|file files IH]; [constructor|].
  cbn [flat_map app]. repeat constructor. exact IH.
Qed.

Lemma rejected_app (format : str) (tr more : list event) :
  rejected format tr -> rejected format (tr ++ more).
Proof.
  intros [op [Hin Hf]]. exists op. split; [|exact Hf].
  apply in_or_app. left. exact Hin.
Qed.

Lemma filter_alone {A : Type} (g : A -> bool) (l1 l2 : list A) (x : A) :
  g x = true ->
  length (filter g (l1 ++ x :: l2)) <= 1 ->
  filter g l1 = [] /\ filter g l2 = [].
Proof.
  intros Hx H. rewrite filter_app in H. simpl in H. rewrite Hx in H.
  rewrite length_app in H. simpl in H.
  destruct (filter g l1), (filter g l2); simpl in H; try lia.
  split; reflexivity.
Qed.

Lemma is_format_eq (format : str) (op op' : async_op) :
  op_format op' = op_format op -> is_format format op' = is_format format op.
Proof. unfold is_format. intros ->. reflexivity. Qed.

(** Whatever settles, a run on schedule stays on schedule. *)
Lemma on_schedule_settle (cfg : config) (externals modules : list str)
      (i : nat) (fulfilled : bool) (st : state) :
  on_schedule cfg externals modules st ->
  on_schedule cfg externals modules (settle i fulfilled st).
Proof.
  intros [Hu Hf]. unfold settle.
  destruct (nth_error (pending st) i) as [[op k]|] eqn:E; [|split; assumption].
  pose proof (firstn_skipn_middle _ _ E) as Hmid.
  set (l1 := firstn i (pending st)) in *.
  set (l2 := skipn (S i) (pending st)) in *.
  rewrite <- Hmid in Hu, Hf.
  apply Forall_app in Hu as [Hu1 Hu2]. inversion Hu2 as [|? ? Huk Hu2']; subst.
  cbn [fst snd] in Huk.
  assert (Hrest : Forall (fun p => Forall (fun op0 => op_format op0 = op_format (fst p))
                                     (task_ops (snd p))) (l1 ++ l2))
    by (apply Forall_app; split; assumption).
  (* the formats other than the settled call's are not concerned *)
  assert (Hother : forall format more l,
             is_format format op = false ->
             calls format more = [] ->
             filter (fun p => is_format format (fst p)) l = [] ->
             rejected format (trace st)
             \/ (calls format (trace st) ++ todo format (l1 ++ (op, k) :: l2)
                 = batch_ops cfg externals format modules
                 /\ length (filter (fun p => is_format format (fst p))
                              (l1 ++ (op, k) :: l2)) <= 1) ->
             rejected format (trace st ++ more)
             \/ (calls format (trace st ++ more) ++ todo format ((l1 ++ l2) ++ l)
                 = batch_ops cfg externals format modules
                 /\ length (filter (fun p => is_format format (fst p))
                              ((l1 ++ l2) ++ l)) <= 1)).
  { intros format more l Hop Hmore Hl [Hr | [Heq Hlen]];
      [left; apply rejected_app, Hr | right].
    rewrite calls_app, Hmore, app_nil_r.
    change ((op, k) :: l2) with ([(op, k)] ++ l2) in Heq, Hlen.
    rewrite !todo_app, todo_one, Hop in Heq.
    rewrite !filter_app in Hlen. cbn [filter fst] in Hlen. rewrite Hop in Hlen.
    split.
    - rewrite !todo_app. unfold todo at 3. rewrite Hl. cbn [flat_map].
      rewrite app_nil_r. exact Heq.
    - rewrite !filter_app, Hl, app_nil_r. exact Hlen. }
  destruct fulfilled.
  - destruct k as [|op' k'].
    + (* the task is over *)
      unfold start. split; cbn [trace pending]; [exact Hrest|].
      intros format Hfmt. specialize (Hf format Hfmt).
      rewrite <- (app_nil_r (l1 ++ l2)).
      destruct (is_format format op) eqn:Hop;
        [|apply Hother; (assumption || reflexivity)].
      destruct Hf as [Hr | [Heq Hlen]]; [left; apply rejected_app, Hr | right].
      rewrite calls_app. cbn [calls flat_map]. rewrite !app_nil_r.
      change ((op, Return) :: l2) with ([(op, Return)] ++ l2) in Heq.
      rewrite !todo_app, todo_one, Hop in Heq. cbn [task_ops app] in Heq.
      split; [rewrite todo_app; exact Heq|].
      rewrite filter_app in Hlen. cbn [filter fst] in Hlen. rewrite Hop in Hlen.
      rewrite length_app in Hlen. cbn [length] in Hlen.
      rewrite filter_app, length_app. lia.
    + (* the task goes on with its next call *)
      inversion Huk as [|? ? Hop' Huk']; subst.
      unfold start. split; cbn [trace pending].
      * apply Forall_app. split; [exact Hrest|]. constructor; [|constructor].
        cbn [fst snd].
        apply (Forall_impl _ (P := fun op0 => op_format op0 = op_format op));
          [intros a Ha; congruence | exact Huk'].
      * intros format Hfmt. specialize (Hf format Hfmt).
        rewrite <- app_assoc.
        destruct (is_format format op) eqn:Hop.
        -- destruct Hf as [Hr | [Heq Hlen]]; [left; apply rejected_app, Hr | right].
           destruct (filter_alone (fun p => is_format format (fst p)) l1 l2 (op, Await op' k')
                       Hop Hlen) as [F1 F2].
           change ((op, Await op' k') :: l2) with ([(op, Await op' k')] ++ l2) in Heq.
           rewrite !todo_app, todo_one, Hop in Heq.
           assert (T1 : todo format l1 = []) by (unfold todo; rewrite F1; reflexivity).
           assert (T2 : todo format l2 = []) by (unfold todo; rewrite F2; reflexivity).
           rewrite T1, T2, app_nil_r in Heq. cbn [task_ops app] in Heq.
           rewrite calls_app. cbn [calls flat_map app].
           rewrite (is_format_eq format op op' Hop'), Hop. cbn [app].
           rewrite !todo_app, T1, T2, todo_one.
           rewrite (is_format_eq format op op' Hop'), Hop. cbn [app].
           split.
           ++ rewrite <- app_assoc. exact Heq.
           ++ rewrite !filter_app, F1, F2. cbn [filter fst app].
              rewrite (is_format_eq format op op' Hop'), Hop. simpl. lia.
        -- apply Hother; try assumption.
           ++ cbn [calls flat_map app].
              rewrite (is_format_eq format op op' Hop'), Hop. reflexivity.
           ++ cbn [filter fst]. rewrite (is_format_eq format op op' Hop'), Hop.
              reflexivity.
  - (* the call is rejected: its task ends *)
    split; cbn [trace pending]; [exact Hrest|].
    intros format Hfmt. specialize (Hf format Hfmt).
    rewrite <- (app_nil_r (l1 ++ l2)).
    destruct (is_format format op) eqn:Hop;
      [|apply Hother; (assumption || reflexivity)].
    left. exists op. split; [|exact Hop].
    apply in_or_app. right. left. reflexivity.
Qed.

Lemma on_schedule_make (cfg : config) (w : world) :
  isDevelopment cfg = false ->
  fst (make cfg w initial) = Ret tt ->
  on_schedule cfg (loaded_externals cfg w) (loaded_modules cfg w)
    (snd (make cfg w initial)).
Proof.
  intro Hdev.
  assert (Hq : forall c o, in_footprint cfg c -> quiet_event (Fs c o))
    by (intros; exact I).
  assert (He : forall e, quiet_event (ConsoleError e)) by (intros; exact I).
  destruct (klaw_throws w (SOURCE_PATH cfg)) as [e|] eqn:Hk.
  { rewrite (make_walk_throws cfg w initial e Hk). intro H. discriminate H. }
  rewrite (make_production cfg w initial Hdev Hk).
  destruct (sync_production_setup quiet_event cfg w (loaded_modules cfg w)
              Hq He Hdev (log (Klaw (SOURCE_PATH cfg)) initial))
    as [Hp [more [Ht [HP _]]]].
  destruct (production_setup cfg w (loaded_modules cfg w)
              (log (Klaw (SOURCE_PATH cfg)) initial)) as [[[]|e0] st0];
    simpl in Hp, Ht |- *; [intros _ | intro H; discriminate H].
  rewrite !start_mapAsync. unfold on_schedule. cbn [trace pending].
  rewrite Hp. cbn [app].
  assert (Hcalls : forall format, calls format (trace st0) = []).
  { intro format. rewrite Ht. apply calls_quiet.
    constructor; [exact I | exact HP]. }
  generalize (loaded_externals cfg w) as externals.
  generalize (loaded_modules cfg w) as modules.
  intros modules externals. split.
  - apply Forall_app. split;
      (destruct modules as [|file rest]; [constructor|];
       constructor; [|constructor]; cbn [fst snd task_ops op_format];
       constructor; [reflexivity|];
       rewrite task_ops_mapAsync; apply batch_ops_format).
  - intros format Hfmt. right. rewrite !calls_app, Hcalls, todo_app.
    destruct modules as [|file rest]; [split; [reflexivity | simpl; lia]|].
    destruct Hfmt as [-> | ->]; split; try (simpl; lia);
      cbn [batch_pending batch_call]; rewrite !todo_one; simpl;
      rewrite ?app_nil_r, ?task_ops_mapAsync; reflexivity.
Qed.

Lemma on_schedule_turns (cfg : config) (w : world) (externals modules : list str)
      (st st' : state) :
  isDevelopment cfg = false ->
  turns cfg w st st' ->
  on_schedule cfg externals modules st -> on_schedule cfg externals modules st'.
Proof.
  intros Hdev H Hst. induction H as [st | st1 st2 st3 _ IH Hturn]; [exact Hst|].
  destruct Hturn as [st2 i fulfilled _ | st2 event file Hd]; [|congruence].
  apply on_schedule_settle, IH, Hst.
Qed.

(** X14. What a production run compiles: when the script's synchronous part
    returned, no call was rejected and nothing is pending any more, the
    calls of each format are, for each eligible file in the order of the
    walk, one [rollup.rollup] on the file and then one [bundle.write] to the
    file's output path, and nothing else. *)
Theorem production_compiles_all (cfg : config) (w : world) (st : state) :
  isDevelopment cfg = false ->
  fst (make cfg w initial) = Ret tt ->
  turns cfg w (snd (make cfg w initial)) st ->
  pending st = [] ->
  (forall op, ~ In (Settled op false) (trace st)) ->
  calls ESM_MODULES (trace st)
  = batch_ops cfg (loaded_externals cfg w) ESM_MODULES (loaded_modules cfg w)
  /\ calls CJS_MODULES (trace st)
     = batch_ops cfg (loaded_externals cfg w) CJS_MODULES (loaded_modules cfg w).
Proof.
  intros Hdev Hret Hturns Hpending Hnone.
  destruct (on_schedule_turns cfg w _ _ _ _ Hdev Hturns (on_schedule_make cfg w Hdev Hret))
    as [_ Hf].
  assert (H : forall format,
             format = ESM_MODULES \/ format = CJS_MODULES ->
             calls format (trace st)
             = batch_ops cfg (loaded_externals cfg w) format (loaded_modules cfg w)).
  { intros format Hfmt. destruct (Hf format Hfmt) as [[op [Hin _]] | [Heq _]].
    - exfalso. exact (Hnone op Hin).
    - rewrite Hpending in Heq. unfold todo in Heq. simpl in Heq.
      rewrite app_nil_r in Heq. exact Heq. }
  split; apply H; [left | right]; reflexivity.
Qed.

(** A project of one file, [Foo/bar.js], whose four calls are fulfilled as
    they come. *)
Lemma production_compiles_all_witness :
  calls ESM_MODULES
    (trace (settle 0 true (settle 0 true (settle 0 true (settle 0 true
       (snd (make Demo.prod Demo.solo initial)))))))
  = batch_ops Demo.prod (loaded_externals Demo.prod Demo.solo) ESM_MODULES
      (loaded_modules Demo.prod Demo.solo)
  /\ calls CJS_MODULES
       (trace (settle 0 true (settle 0 true (settle 0 true (settle 0 true
          (snd (make Demo.prod Demo.solo initial)))))))
     = batch_ops Demo.prod (loaded_externals Demo.prod Demo.solo) CJS_MODULES
         (loaded_modules Demo.prod Demo.solo).
Proof.
  apply (production_compiles_all Demo.prod Demo.solo).
  - reflexivity.
  - reflexivity.
  - repeat (eapply turns_step; [|apply turn_settle; vm_compute; lia]).
    apply turns_refl.
  - reflexivity.
  - intros op H. vm_compute in H.
    repeat (destruct H as [H|H]; [discriminate H|]). destruct H.
Defined.

(** ** One walk of the source tree *)

Lemma walks_app (a b : list event) : walks (a ++ b) = walks a ++ walks b.
Proof. unfold walks. apply flat_map_app. Qed.

Lemma walks_setup_only (tr : list event) : Forall setup_only tr -> walks tr = [].
Proof.
  induction 1 as [|e tr He _ IH]; [reflexivity|].
  destruct e; simpl; try exact IH. destruct He.
Qed.

Lemma walks_start (t : task) (st : state) : walks (trace (start t st)) = walks (trace st).
Proof.
  destruct t; simpl; [reflexivity|]. rewrite walks_app. simpl. apply app_nil_r.
Qed.

Lemma walks_turn (cfg : config) (w : world) (st st' : state) :
  turn cfg w st st' -> walks (trace st') = walks (trace st).
Proof.
  intros [st0 i fulfilled _ | st0 event file _].
  - unfold settle. destruct (nth_error (pending st0) i) as [[op k]|]; [|reflexivity].
    destruct fulfilled; [rewrite walks_start|]; simpl;
      rewrite walks_app; simpl; apply app_nil_r.
  - unfold watch_event.
    destruct (anymatch DO_NOT_BUILD_PATHS file); [reflexivity|].
    destruct (str_eqb event (lit "add")) eqn:Ea;
      [apply str_eqb_eq in Ea; rewrite on_all_build by (left; exact Ea);
       simpl; rewrite walks_app; simpl; apply app_nil_r|].
    destruct (str_eqb event (lit "change")) eqn:Ec;
      [apply str_eqb_eq in Ec; rewrite on_all_build by (right; exact Ec);
       simpl; rewrite walks_app; simpl; apply app_nil_r|].
    rewrite on_all_other by (apply str_eqb_neq; assumption). reflexivity.
Qed.

Lemma walks_make (cfg : config) (w : world) :
  walks (trace (snd (make cfg w initial))) = [SOURCE_PATH cfg].
Proof.
  assert (Hq : forall c o, in_footprint cfg c -> setup_only (Fs c o))
    by (intros; exact I).
  assert (He : forall e, setup_only (ConsoleError e)) by (intros; exact I).
  destruct (klaw_throws w (SOURCE_PATH cfg)) as [e|] eqn:Hk.
  { rewrite (make_walk_throws cfg w initial e Hk). reflexivity. }
  destruct (isDevelopment cfg) eqn:Hdev.
  - rewrite (make_development cfg w initial Hdev Hk).
    destruct (sync_development_setup setup_only cfg w (loaded_modules cfg w)
                Hq He Hdev (log (Klaw (SOURCE_PATH cfg)) initial))
      as [_ [more [Ht [HP _]]]].
    destruct (development_setup cfg w (loaded_modules cfg w)
                (log (Klaw (SOURCE_PATH cfg)) initial)) as [[[]|e0] st0];
      cbn [snd fst trace log] in Ht |- *;
      rewrite Ht, !walks_app, (walks_setup_only more HP); reflexivity.
  - rewrite (make_production cfg w initial Hdev Hk).
    destruct (sync_production_setup setup_only cfg w (loaded_modules cfg w)
                Hq He Hdev (log (Klaw (SOURCE_PATH cfg)) initial))
      as [_ [more [Ht [HP _]]]].
    destruct (production_setup cfg w (loaded_modules cfg w)
                (log (Klaw (SOURCE_PATH cfg)) initial)) as [[[]|e0] st0];
      cbn [snd fst trace log] in Ht |- *;
      rewrite ?walks_start, Ht, !walks_app, (walks_setup_only more HP);
      reflexivity.
Qed.

(** X15. The source tree is walked once: in every run, in either mode,
    whatever fails and whatever the watcher reports, [klaw] is called
    exactly once, on the source root; so the modules, the externals and
    the manifests are those of the tree as it was when the script started. *)
Theorem walked_once (cfg : config) (w : world) (st : state) :
  turns cfg w (snd (make cfg w initial)) st ->
  walks (trace st) = [SOURCE_PATH cfg].
Proof.
  intro H. rewrite <- (walks_make cfg w).
  remember (snd (make cfg w initial)) as st0 eqn:E. clear E.
  induction H as [st | st1 st2 st3 _ IH Hturn]; [reflexivity|].
  rewrite <- IH. apply (walks_turn cfg w), Hturn.
Qed.

(** The watched demo project after a new file was added. *)
Lemma walked_once_witness :
  walks (trace (snd (watch_event Demo.dev Demo.calm (lit "add")
                       (lit "/proj/src/New.js")
                       (snd (make Demo.dev Demo.calm initial)))))
  = [SOURCE_PATH Demo.dev].
Proof.
  apply (walked_once Demo.dev Demo.calm).
  eapply turns_step; [apply turns_refl|]. apply turn_watch. reflexivity.
Defined.
